(** * GeoBlock: the outbound packet filter of [geoblock.py], and the
      address predicate it shares with [sniffer.py].

    The development is a shallow embedding of the two Python modules.
    Python values are modelled as follows.
    - [str] is [string]; [None] in a place that holds a string is the
      [None] of [option string].
    - [int] is [Z].
    - a [dict] is a [gmap], a [set] a [gset].
    - a call that may raise returns a [result]; code that also reads or
      writes the module globals runs in the monad [M] of the module
      [Geoblock]. *)

From Stdlib Require Import ZArith String Ascii List Bool Lia.
From stdpp Require Import base option gmap strings.

Local Open Scope string_scope.
Local Open Scope Z_scope.

(** ** Exceptions

    Only the classes that the handlers of the two modules tell apart
    are kept: [except ValueError] catches the first constructor only,
    [except Exception] catches both. *)
Inductive exn : Type :=
  | ValueError
  | OtherException.

Inductive result (A : Type) : Type :=
  | Ok (a : A)
  | Raise (e : exn).
Arguments Ok {A} a.
Arguments Raise {A} e.

(** [try: body / except Exception: handler] *)
Definition try_except {A} (body : result A) (handler : exn -> result A) : result A :=
  match body with
  | Ok a => Ok a
  | Raise e => handler e
  end.

(** [try: body / except ValueError: handler]; another exception goes on
    to the caller. *)
Definition try_except_ValueError {A} (body : result A) (handler : result A) : result A :=
  match body with
  | Ok a => Ok a
  | Raise ValueError => handler
  | Raise e => Raise e
  end.

(** ** The [ipaddress] module of the Python library

    The module is not part of the repository; the code is verified
    against its interface. [ip_address] takes the value the callers pass
    (a string, or [None] when the packet has no address), and either
    returns an address object or raises. The library documents that a
    value that is no IPv4 or IPv6 address raises [ValueError]; that is
    the law of the interface. The three properties are booleans. *)
Record ipaddress : Type := {
  ip_object : Type;
  ip_address : option string -> result ip_object;
  is_private : ip_object -> bool;
  is_loopback : ip_object -> bool;
  is_link_local : ip_object -> bool;
  ip_address_raises : forall a e, ip_address a = Raise e -> e = ValueError
}.

(** *** An instance for dotted-quad literals

    A small instance of the interface, on which the model can be run on
    concrete packets: IPv4 literals [a.b.c.d], private ranges 10/8,
    172.16/12 and 192.168/16, loopback 127/8, link-local 169.254/16. *)
Module DottedQuad.

Definition is_digit (c : ascii) : bool :=
  let n := N_of_ascii c in ((48 <=? n) && (n <=? 57))%N.

Definition digit_value (c : ascii) : Z := Z.of_N (N_of_ascii c) - 48.

Fixpoint split_dots (s : string) (cur : list ascii) : list (list ascii) :=
  match s with
  | EmptyString => [rev cur]
  | String c s' =>
      if Ascii.eqb c "."%char then rev cur :: split_dots s' []
      else split_dots s' (c :: cur)
  end.

Definition octet (ds : list ascii) : option Z :=
  match ds with
  | [] => None
  | d :: rest =>
      if negb (forallb is_digit ds) then None
      else if (3 <? Z.of_nat (length ds)) then None
      else if Ascii.eqb d "0"%char && negb (Nat.eqb (length rest) 0) then None
      else
        let v := fold_left (fun acc c => 10 * acc + digit_value c) ds 0 in
        if v <=? 255 then Some v else None
  end.

Definition octets (a : option string) : option (Z * Z * Z * Z) :=
  match a with
  | None => None
  | Some s =>
      match map octet (split_dots s []) with
      | [Some a; Some b; Some c; Some d] => Some (a, b, c, d)
      | _ => None
      end
  end.

Definition parse (a : option string) : result (Z * Z * Z * Z) :=
  match octets a with
  | Some o => Ok o
  | None => Raise ValueError
  end.

Definition private (o : Z * Z * Z * Z) : bool :=
  let '(a, b, _, _) := o in
  (a =? 10) || ((a =? 172) && (16 <=? b) && (b <=? 31))
  || ((a =? 192) && (b =? 168)).

Definition loopback (o : Z * Z * Z * Z) : bool :=
  let '(a, _, _, _) := o in a =? 127.

Definition link_local (o : Z * Z * Z * Z) : bool :=
  let '(a, b, _, _) := o in (a =? 169) && (b =? 254).

Definition lib : ipaddress := {|
  ip_object := Z * Z * Z * Z;
  ip_address := parse;
  is_private := private;
  is_loopback := loopback;
  is_link_local := link_local;
  ip_address_raises := fun a e =>
    match octets a as o
      return (match o with Some v => Ok v | None => Raise ValueError end = Raise e
              -> e = ValueError)
    with
    | Some v => fun H => match H in (_ = r) return (match r with Ok _ => True | Raise _ => e = ValueError end) with eq_refl => I end
    | None => fun H => match H in (_ = r) return (match r with Ok _ => True | Raise e' => e' = ValueError end) with eq_refl => eq_refl end
    end
|}.

End DottedQuad.

(** ** sniffer.py *)
Module Sniffer.
Section WithLibrary.
Variable L : ipaddress.

(** [is_local_ip(ip)], lines 11-31: three tests in turn, each
    returning [True]; [except ValueError] returns [False]. *)
Definition is_local_ip (ip : option string) : result bool :=
  try_except_ValueError
    (match ip_address L ip with
     | Raise e => Raise e
     | Ok ip_obj =>
         if is_private L ip_obj then Ok true
         else if is_loopback L ip_obj then Ok true
         else if is_link_local L ip_obj then Ok true
         else Ok false
     end)
    (Ok false).

End WithLibrary.

(** [FORTNITE_PORT_RANGE = range(12000, 65000)], as the test
    [src_port in FORTNITE_PORT_RANGE] on an integer. *)
Definition FORTNITE_PORT_RANGE (src_port : Z) : bool :=
  (12000 <=? src_port) && (src_port <? 65000).

(** What the capture prints and requests, in order. *)
Inductive sniff_event : Type :=
  | SnPrintSniffing
  | SnPrintDetected (dst_ip : string)
  | SnGet (ip : string)
  | SnPrintRegion (region : string).

(** A captured packet as the loop reads it: the outcome of
    [int(packet.udp.srcport)] and of [packet.ip.dst], each of which
    raises when the layer or the field is missing or malformed. *)
Record captured : Type := {
  udp_srcport : result Z;
  ip_dst : result string
}.

(** [str(v)] for a string or [None], as an f-string renders it. *)
Definition str (v : option string) : string :=
  match v with
  | Some s => s
  | None => "None"
  end.

(** [data.get(key)] on a JSON object whose values are strings or
    [null]. *)
Definition dict_get (data : gmap string (option string)) (key : string) : option string :=
  default None (data !! key).

Section Capture.
Variable L : ipaddress.

(** [requests.get(f"https://ipinfo.io/{ip}/json").json()]: the JSON
    object, or [None] when the request or the decoding raises. *)
Variable ipinfo : string -> option (gmap string (option string)).

(** [get_ip_info] (lines 33-39); the bare [except] catches whatever
    the request raises. *)
Definition get_ip_info (ip : string) (t : list sniff_event) : string * list sniff_event :=
  let t' := (t ++ [SnGet ip])%list in
  match ipinfo ip with
  | Some data =>
      ((str (dict_get data "country") ++ " - " ++ str (dict_get data "region")
          ++ " (" ++ str (dict_get data "city") ++ ")")%string,
       t')
  | None => ("Unknown", t')
  end.

(** The loop of [capture_fortnite_traffic] (lines 45-61) over the
    packets the capture yields; [except Exception: continue] catches
    what reading the packet or [is_local_ip] raises. *)
Fixpoint sniff (packets : list captured) (t : list sniff_event) : list sniff_event :=
  match packets with
  | [] => t
  | packet :: rest =>
      match udp_srcport packet with
      | Raise _ => sniff rest t
      | Ok src_port =>
          match ip_dst packet with
          | Raise _ => sniff rest t
          | Ok dst_ip =>
              match is_local_ip L (Some dst_ip) with
              | Raise _ => sniff rest t
              | Ok true => sniff rest t
              | Ok false =>
                  if FORTNITE_PORT_RANGE src_port then
                    let t1 := (t ++ [SnPrintDetected dst_ip])%list in
                    let '(region, t2) := get_ip_info dst_ip t1 in
                    (t2 ++ [SnPrintRegion region])%list
                  else sniff rest t
              end
          end
      end
  end.

(** [capture_fortnite_traffic] (lines 41-61) *)
Definition capture_fortnite_traffic (packets : list captured) : list sniff_event :=
  sniff packets [SnPrintSniffing].

End Capture.
End Sniffer.

(** ** geoblock.py *)
Module Geoblock.

(** *** Module constants (lines 10-14) *)
Definition _BLOCK_COUNTRIES : gset string := {[ "GB"; "DE" ]}.
Definition MIN_DST_PORT : Z := 15000.
Definition MAX_DST_PORT : Z := 15999.

(** *** Strings

    [str.upper()] on the characters a country code is made of: the
    letters [a]-[z] go to [A]-[Z], every other character is kept. *)
Definition upper_char (c : ascii) : ascii :=
  let n := N_of_ascii c in
  if ((97 <=? n) && (n <=? 122))%N then ascii_of_N (n - 32) else c.

Fixpoint upper (s : string) : string :=
  match s with
  | EmptyString => EmptyString
  | String c s' => String (upper_char c) (upper s')
  end.

(** Truth value of a string or [None]: [None] and the empty string are
    false. *)
Definition truthy (v : option string) : bool :=
  match v with
  | None => false
  | Some s => negb (String.eqb s "")
  end.

(** [v or d] for [v] a string or [None] and [d] a string. *)
Definition py_or (v : option string) (d : string) : string :=
  match v with
  | Some s => if String.eqb s "" then d else s
  | None => d
  end.

(** *** Packets, the handle, and what the program prints *)

(** A packet as the loop sees it: the two attributes it reads. [pkt_id]
    stands for the rest of the packet and tells packets apart. *)
Record packet : Type := {
  pkt_id : nat;
  dst_addr : option string;
  dst_port : option Z
}.

(** The object [w] bound by [with WinDivert("outbound and ip") as w]. *)
Inductive handle : Type := WinDivertHandle.

Inductive message : Type :=
  | MsgStarting
  | MsgMonitoring
  | MsgBlocking
  | MsgShuttingDown
  | MsgBlocked (dst : option string) (port : option Z) (country : string)
  | MsgAllowed (dst : option string) (port : option Z) (country : string)
  | MsgErrorHandlingPacket
  | MsgWinDivertError
  | MsgSetupError.

(** What the run does to the outside, in program order: calls of the
    interception facility and of the database, lines printed, and the
    write [RUNNING = False]. *)
Inductive event : Type :=
  | EvPrint (m : message)
  | EvOpen
  | EvRecv
  | EvSend (pkt : packet)
  | EvClose
  | EvQuery (ip : option string)
  | EvStop.

(** What [next(w)] does at one turn of [for pkt in w]. *)
Inductive recv_event : Type :=
  | Yields (pkt : option packet)
  | RecvRaises.

(** *** State: the module globals, a clock and the trace *)
Record state : Type := {
  RUNNING : bool;
  CURRENT_DIVERT : option handle;
  _IP_COUNTRY_CACHE : gmap (option string) (option string);
  clock : nat;
  trace : list event
}.

Definition initial : state := {|
  RUNNING := true;
  CURRENT_DIVERT := None;
  _IP_COUNTRY_CACHE := ∅;
  clock := 0%nat;
  trace := []
|}.

Definition set_RUNNING (b : bool) (st : state) : state :=
  {| RUNNING := b; CURRENT_DIVERT := CURRENT_DIVERT st;
     _IP_COUNTRY_CACHE := _IP_COUNTRY_CACHE st; clock := clock st;
     trace := trace st |}.

Definition set_CURRENT_DIVERT (h : option handle) (st : state) : state :=
  {| RUNNING := RUNNING st; CURRENT_DIVERT := h;
     _IP_COUNTRY_CACHE := _IP_COUNTRY_CACHE st; clock := clock st;
     trace := trace st |}.

Definition set_cache (c : gmap (option string) (option string)) (st : state) : state :=
  {| RUNNING := RUNNING st; CURRENT_DIVERT := CURRENT_DIVERT st;
     _IP_COUNTRY_CACHE := c; clock := clock st; trace := trace st |}.

Definition set_clock (n : nat) (st : state) : state :=
  {| RUNNING := RUNNING st; CURRENT_DIVERT := CURRENT_DIVERT st;
     _IP_COUNTRY_CACHE := _IP_COUNTRY_CACHE st; clock := n;
     trace := trace st |}.

Definition record (e : event) (st : state) : state :=
  {| RUNNING := RUNNING st; CURRENT_DIVERT := CURRENT_DIVERT st;
     _IP_COUNTRY_CACHE := _IP_COUNTRY_CACHE st; clock := clock st;
     trace := trace st ++ [e] |}.

(** Projections of a trace. *)
Definition sends (t : list event) : list packet :=
  omap (fun e => match e with EvSend p => Some p | _ => None end) t.

Definition queries (t : list event) : list (option string) :=
  omap (fun e => match e with EvQuery ip => Some ip | _ => None end) t.

Definition prints (t : list event) : list message :=
  omap (fun e => match e with EvPrint m => Some m | _ => None end) t.

(** *** The outside world

    Everything the program does not decide: the reader loaded at import
    (lines 69-74, [None] when loading failed), whether the handle opens,
    whether the [send] or [close] issued at a given clock value
    succeeds, and at which clock values SIGINT is delivered. *)
Record world : Type := {
  _GEOIP_READER : option (option string -> result (option string));
  open_ok : bool;
  send_ok : nat -> bool;
  close_ok : nat -> bool;
  sigint : nat -> bool
}.

(** *** The monad: state and exceptions *)
Definition M (A : Type) : Type := state -> result A * state.

Definition ret {A} (a : A) : M A := fun st => (Ok a, st).

Definition raise {A} (e : exn) : M A := fun st => (Raise e, st).

Definition bind {A B} (m : M A) (k : A -> M B) : M B :=
  fun st =>
    match m st with
    | (Ok a, st') => k a st'
    | (Raise e, st') => (Raise e, st')
    end.

Declare Scope py_scope.
Delimit Scope py_scope with py.
Notation "x <- m ; k" := (bind m (fun x => k))
  (at level 20, m at level 100, k at level 200, only parsing) : py_scope.
Notation "m ;; k" := (bind m (fun _ => k))
  (at level 100, k at level 200, only parsing, right associativity) : py_scope.
Local Open Scope py_scope.

(** [try: m / except Exception: h] *)
Definition catch {A} (m : M A) (h : exn -> M A) : M A :=
  fun st =>
    match m st with
    | (Ok a, st') => (Ok a, st')
    | (Raise e, st') => h e st'
    end.

(** [try: m / finally: f] *)
Definition try_finally {A} (m : M A) (f : M unit) : M A :=
  fun st =>
    match m st with
    | (r, st') =>
        match f st' with
        | (Ok _, st'') => (r, st'')
        | (Raise e, st'') => (Raise e, st'')
        end
    end.

Definition lift {A} (r : result A) : M A := fun st => (r, st).

Definition gets {A} (f : state -> A) : M A := fun st => (Ok (f st), st).

Definition modify (f : state -> state) : M unit := fun st => (Ok tt, f st).


Section WithWorld.
Variable L : ipaddress.
Variable W : world.

(** *** [is_local_ip] (lines 17-22) *)
Definition is_local_ip (ip : option string) : result bool :=
  try_except
    (match ip_address L ip with
     | Raise e => Raise e
     | Ok o => Ok (is_private L o || is_loopback L o || is_link_local L o)
     end)
    (fun _ => Ok false).

(** *** [_signal_stop] (lines 93-101) and signal delivery *)

(** [CURRENT_DIVERT.close()]: the call is recorded, then succeeds or
    raises as the world says. *)
Definition close_call : M unit :=
  fun st =>
    let st' := record EvClose st in
    if close_ok W (clock st) then (Ok tt, st') else (Raise OtherException, st').

Definition _signal_stop : M unit :=
  modify (fun st => record EvStop (set_RUNNING false st)) ;;
  h <- gets CURRENT_DIVERT ;
  match h with
  | Some _ => catch close_call (fun _ => ret tt)
  | None => ret tt
  end.

(** Python runs a signal handler between two statements of the main
    program. Every statement below that reads or writes a global, or
    calls out, starts with [tick]: the clock advances, and the handler
    runs first when the world delivers SIGINT at that clock value. *)
Definition tick : M unit :=
  fun st =>
    let st' := set_clock (S (clock st)) st in
    if sigint W (clock st) then _signal_stop st' else (Ok tt, st').

(** *** Statements *)
Definition print (m : message) : M unit :=
  tick ;; modify (record (EvPrint m)).

Definition read_RUNNING : M bool :=
  tick ;; gets RUNNING.

(** [w.send(pkt)] *)
Definition send (pkt : packet) : M unit :=
  tick ;;
  n <- gets clock ;
  modify (record (EvSend pkt)) ;;
  if send_ok W n then ret tt else raise OtherException.

(** [WinDivert("outbound and ip").__enter__()] *)
Definition open : M handle :=
  tick ;;
  modify (record EvOpen) ;;
  if open_ok W then ret WinDivertHandle else raise OtherException.

(** [w.__exit__(...)], which calls [w.close()] *)
Definition close : M unit :=
  tick ;; close_call.

(** [next(w)], which calls [w.recv()] *)
Definition next (ev : recv_event) : M (option packet) :=
  tick ;;
  modify (record EvRecv) ;;
  match ev with
  | Yields pkt => ret pkt
  | RecvRaises => raise OtherException
  end.

(** [_GEOIP_READER.country(ip).country.iso_code] *)
Definition query (reader : option string -> result (option string))
    (ip : option string) : M (option string) :=
  tick ;;
  modify (record (EvQuery ip)) ;;
  lift (reader ip).

(** *** [get_ip_country] (lines 77-90) *)
Definition get_ip_country (ip : option string) : M (option string) :=
  v <- gets (fun st => default None (_IP_COUNTRY_CACHE st !! ip)) ;
  match v with
  | Some c => ret (Some c)
  | None =>
      country <-
        match _GEOIP_READER W with
        | Some reader => catch (query reader ip) (fun _ => ret None)
        | None => ret None
        end ;
      modify (fun st => set_cache (<[ip := country]> (_IP_COUNTRY_CACHE st)) st) ;;
      ret country
  end.

(** *** [block_countries_for_process] (lines 107-163) *)

(** The test of line 134. *)
Definition outside_monitored_range (dst_port : option Z) : bool :=
  match dst_port with
  | None => true
  | Some p => (p <=? MIN_DST_PORT) || (p >? MAX_DST_PORT)
  end.

(** The body of the inner [try] (lines 125-145). Each branch ends the
    turn of the loop, by [continue] or by reaching the end. *)
Definition handle_packet (pkt : packet) : M unit :=
  let dst := dst_addr pkt in
  local <- lift (is_local_ip dst) ;
  if local then send pkt
  else
    let dst_port := dst_port pkt in
    if outside_monitored_range dst_port then send pkt
    else
      c <- get_ip_country dst ;
      let country := py_or c "Unknown" in
      if truthy (Some country) && bool_decide (upper country ∈ _BLOCK_COUNTRIES)
      then print (MsgBlocked dst dst_port country)
      else print (MsgAllowed dst dst_port country) ;; send pkt.

Inductive flow : Type := Continue | Break.

(** The handler of the inner [try] (lines 146-154). *)
Definition on_packet_error (pkt : packet) : M flow :=
  running <- read_RUNNING ;
  if negb running then ret Break
  else
    print MsgErrorHandlingPacket ;;
    catch (send pkt) (fun _ => ret tt) ;;
    ret Continue.

(** The inner [try] statement (lines 124-154). *)
Definition try_handle_packet (pkt : packet) : M flow :=
  catch (handle_packet pkt ;; ret Continue) (fun _ => on_packet_error pkt).

(** The body of [for pkt in w] (lines 119-154). *)
Definition iteration (pkt : option packet) : M flow :=
  running <- read_RUNNING ;
  if negb running then print MsgShuttingDown ;; ret Break
  else
    match pkt with
    | None => ret Continue
    | Some pkt => try_handle_packet pkt
    end.

(** [for pkt in w: ...] against a script of what [next(w)] does at each
    turn; the end of the script is the iterator's [StopIteration]. *)
Fixpoint receive_loop (script : list recv_event) : M unit :=
  match script with
  | [] => ret tt
  | ev :: rest =>
      pkt <- next ev ;
      f <- iteration pkt ;
      match f with
      | Break => ret tt
      | Continue => receive_loop rest
      end
  end.

(** Lines 117-158: the loop under its [except Exception]. *)
Definition guarded_loop (script : list recv_event) : M unit :=
  catch (receive_loop script)
    (fun _ =>
       running <- read_RUNNING ;
       if running then print MsgWinDivertError else ret tt).

(** [with enter as w: body]: [__exit__] runs whether or not the body
    raised; an exception of [__exit__] replaces the pending one, and
    [__exit__] returning [None] lets a pending one go on. *)
Definition with_ {A} (enter : M handle) (body : handle -> M A) (exit : M unit) : M A :=
  w <- enter ;
  fun st => let '(r, st') := body w st in (exit ;; lift r) st'.

(** Lines 115-158. *)
Definition with_divert (script : list recv_event) : M unit :=
  with_ open
    (fun w =>
       tick ;;
       modify (set_CURRENT_DIVERT (Some w)) ;;
       guarded_loop script)
    close.

Definition block_countries_for_process (script : list recv_event) : M unit :=
  print MsgStarting ;;
  print MsgMonitoring ;;
  print MsgBlocking ;;
  try_finally
    (catch (with_divert script)
       (fun _ =>
          running <- read_RUNNING ;
          if running then print MsgSetupError else ret tt))
    (tick ;; modify (set_CURRENT_DIVERT None)).

End WithWorld.

(** *** Import-time code: the database file (lines 25-74)

    Times are [datetime] values counted in microseconds, the resolution
    of [datetime]; a [timedelta] is a difference of two of them.
    [modified] is [datetime.fromtimestamp(os.path.getmtime(GEOIP_DB_FILE))].
    [database] is what [geoip2.database.Reader] makes of the content of
    the file: a lookup function, or [None] when it raises. *)
Definition microseconds_per_day : Z := 86400 * 1000000.

(** [timedelta(days=30)] *)
Definition thirty_days : Z := 30 * microseconds_per_day.

(** [delta.days]: whole days, rounded down. *)
Definition timedelta_days (delta : Z) : Z := delta / microseconds_per_day.

Record geoip_file : Type := {
  modified : Z;
  database : option (option string -> result (option string))
}.

(** What [urlretrieve(url, GEOIP_DB_FILE)] does: it writes the file and
    returns, or raises and leaves at the path whatever it got to. *)
Inductive retrieve_outcome : Type :=
  | Retrieved (f : geoip_file)
  | RetrieveRaises (remains : option geoip_file).

(** The part of the outside the import-time code meets: the value of
    the n-th call of [datetime.now()], and the outcome of the download
    given the file on disk. *)
Record startup_world : Type := {
  now : nat -> Z;
  urlretrieve : option geoip_file -> retrieve_outcome
}.

Inductive startup_message : Type :=
  | MsgDbOld (age_days : Z) (last_updated : Z)
  | MsgDbFound (age_days : Z)
  | MsgUpdating
  | MsgDownloading
  | MsgDownloaded
  | MsgDownloadFailed
  | MsgDownloadManually
  | MsgDbLoaded
  | MsgDbNotLoaded.

Inductive startup_event : Type :=
  | StPrint (m : startup_message)
  | StRetrieve.

(** The file at [GEOIP_DB_FILE] if there is one, the number of calls of
    [datetime.now()] so far, and what was printed and requested. *)
Record startup_state : Type := {
  disk : option geoip_file;
  now_calls : nat;
  output : list startup_event
}.

Definition emit (e : startup_event) (st : startup_state) : startup_state :=
  {| disk := disk st; now_calls := now_calls st; output := output st ++ [e] |}.

Section Startup.
Variable SW : startup_world.

(** [datetime.now()] *)
Definition datetime_now (st : startup_state) : Z * startup_state :=
  (now SW (now_calls st),
   {| disk := disk st; now_calls := S (now_calls st); output := output st |}).

(** [is_db_outdated] (lines 25-38) *)
Definition is_db_outdated (st : startup_state) : bool * startup_state :=
  match disk st with
  | None => (true, st)
  | Some f =>
      let file_modified_time := modified f in
      let '(t, st1) := datetime_now st in
      let file_age := t - file_modified_time in
      if file_age >? thirty_days
      then (true, emit (StPrint (MsgDbOld (timedelta_days file_age) file_modified_time)) st1)
      else (false, st1)
  end.

(** The download of lines 48-63, reached when the file is missing or
    outdated. *)
Definition retrieve (st : startup_state) : bool * startup_state :=
  let st1 :=
    match disk st with
    | Some _ => emit (StPrint MsgUpdating) st
    | None => emit (StPrint MsgDownloading) st
    end in
  let st2 := emit StRetrieve st1 in
  match urlretrieve SW (disk st2) with
  | Retrieved f =>
      (true,
       emit (StPrint MsgDownloaded)
         {| disk := Some f; now_calls := now_calls st2; output := output st2 |})
  | RetrieveRaises remains =>
      (false,
       emit (StPrint MsgDownloadManually)
         (emit (StPrint MsgDownloadFailed)
            {| disk := remains; now_calls := now_calls st2; output := output st2 |}))
  end.

(** [download_geoip_db] (lines 41-63) *)
Definition download_geoip_db (st : startup_state) : bool * startup_state :=
  match disk st with
  | Some f =>
      let '(outdated, st1) := is_db_outdated st in
      if negb outdated then
        let file_modified_time := modified f in
        let '(t, st2) := datetime_now st1 in
        (true, emit (StPrint (MsgDbFound (timedelta_days (t - file_modified_time)))) st2)
      else retrieve st1
  | None => retrieve st
  end.

(** Lines 67-74: the download, whose result is not looked at, then the
    value bound to [_GEOIP_READER]. *)
Definition load_reader (st : startup_state) :
    option (option string -> result (option string)) * startup_state :=
  let '(_, st1) := download_geoip_db st in
  match disk st1 with
  | Some {| database := Some reader |} => (Some reader, emit (StPrint MsgDbLoaded) st1)
  | _ => (None, emit (StPrint MsgDbNotLoaded) st1)
  end.

End Startup.

(** The world of a run whose reader is the one the import bound. *)
Definition with_reader (reader : option (option string -> result (option string)))
    (W : world) : world :=
  {| _GEOIP_READER := reader; open_ok := open_ok W; send_ok := send_ok W;
     close_ok := close_ok W; sigint := sigint W |}.

End Geoblock.

Import Geoblock.
Local Open Scope py_scope.
Local Open Scope list_scope.

(** ** Vocabulary of the specification *)

(** PortWindow: [in_window(port, min_exclusive, max_inclusive)], false
    for an absent port. *)
Definition in_window (port : option Z) (min_exclusive max_inclusive : Z) : bool :=
  match port with
  | None => false
  | Some p => (min_exclusive <? p) && (p <=? max_inclusive)
  end.

(** Membership of a resolved country in the blocked set, letter case
    ignored; an unresolved country is no member. *)
Definition blocked_country (resolved : option string) (blocked : gset string) : bool :=
  match resolved with
  | None => false
  | Some c => bool_decide (set_Exists (fun b => upper b = upper c) blocked)
  end.

Inductive verdict : Type := Allow | Drop.

(** PolicyEngine: the ordered chain, first match wins. *)
Definition decide_chain (local : bool) (port : option Z) (resolved : option string) : verdict :=
  if local then Allow
  else if negb (in_window port MIN_DST_PORT MAX_DST_PORT) then Allow
  else if blocked_country resolved _BLOCK_COUNTRIES then Drop
  else Allow.

(** The packets a verdict re-injects. *)
Definition reinjected (v : verdict) (pkt : packet) : list packet :=
  match v with
  | Allow => [pkt]
  | Drop => []
  end.

(** The value a call returned, [None] when it raised. *)
Definition returned (r : result (option string)) : option string :=
  match r with
  | Ok v => v
  | Raise _ => None
  end.

(** Every cached entry is the unresolved marker. *)
Definition unresolved_cache (st : state) : Prop :=
  map_Forall (fun _ v => v = None) (_IP_COUNTRY_CACHE st).

Definition is_blocked_message (m : message) : bool :=
  match m with
  | MsgBlocked _ _ _ => true
  | _ => false
  end.

(** The state [_signal_stop] leaves: the flag is down, and [close] was
    called when a handle was published. The outcome of [close] does not
    show in it. *)
Definition stopped (st : state) : state :=
  let st' := record EvStop (set_RUNNING false st) in
  match CURRENT_DIVERT st with
  | Some _ => record EvClose st'
  | None => st'
  end.

(** The state [tick] leaves. *)
Definition after_tick (W : world) (st : state) : state :=
  let st' := set_clock (S (clock st)) st in
  if sigint W (clock st) then stopped st' else st'.

(** The events a signal delivered at the clock value of [st] adds. *)
Definition signal_events (W : world) (st : state) : list event :=
  if sigint W (clock st)
  then EvStop :: match CURRENT_DIVERT st with Some _ => [EvClose] | None => [] end
  else [].

(** [m] keeps the property [I] of states, whether it returns or
    raises. *)
Definition preserves {A} (I : state -> Prop) (m : M A) : Prop :=
  forall st, I st -> I (snd (m st)).

(** Events other than a database query and the report of a drop. *)
Definition harmless (e : event) : bool :=
  match e with
  | EvQuery _ => false
  | EvPrint m => negb (is_blocked_message m)
  | _ => true
  end.

(** The database was never queried, no drop was reported, and every
    cached entry is the unresolved marker. *)
Definition never_resolved (st : state) : Prop :=
  unresolved_cache st
  /\ queries (trace st) = []
  /\ Forall (fun m => is_blocked_message m = false) (prints (trace st)).

(** *** Worlds and packets for the examples *)
Definition sample_db (ip : option string) : result (option string) :=
  match ip with
  | Some "8.8.8.8" => Ok (Some "US")
  | Some "81.2.69.142" => Ok (Some "gb")
  | Some "5.1.1.1" => Ok (Some "DE")
  | Some "1.1.1.1" => Ok None
  | _ => Raise OtherException
  end.

(** A quiet world: the database is loaded, every call succeeds, no
    signal arrives. *)
Definition quiet_world : world := {|
  _GEOIP_READER := Some sample_db;
  open_ok := true;
  send_ok := fun _ => true;
  close_ok := fun _ => true;
  sigint := fun _ => false
|}.

(** The database failed to load. *)
Definition no_database_world : world := {|
  _GEOIP_READER := None;
  open_ok := true;
  send_ok := fun _ => true;
  close_ok := fun _ => true;
  sigint := fun _ => false
|}.

(** Every [send] fails. *)
Definition failing_send_world : world := {|
  _GEOIP_READER := Some sample_db;
  open_ok := true;
  send_ok := fun _ => false;
  close_ok := fun _ => true;
  sigint := fun _ => false
|}.

(** The handle does not open. *)
Definition no_handle_world : world := {|
  _GEOIP_READER := Some sample_db;
  open_ok := false;
  send_ok := fun _ => true;
  close_ok := fun _ => true;
  sigint := fun _ => false
|}.

(** SIGINT arrives once, at the given clock value. *)
Definition interrupted_world (n : nat) : world := {|
  _GEOIP_READER := Some sample_db;
  open_ok := true;
  send_ok := fun _ => true;
  close_ok := fun _ => true;
  sigint := Nat.eqb n
|}.

(** Events that do not use the handle. *)
Definition after_close (e : event) : bool :=
  match e with
  | EvPrint _ | EvStop | EvClose => true
  | _ => false
  end.

(** The last call on the handle is a [close]. *)
Definition released (t : list event) : Prop :=
  exists t1 t2, t = t1 ++ EvClose :: t2 /\ forallb after_close t2 = true.

Definition sample_packet (n : nat) (a : string) (p : Z) : packet :=
  {| pkt_id := n; dst_addr := Some a; dst_port := Some p |}.

(** *** Vocabulary of the further properties *)

(** From a state with [I], [m] ends in a state with [J], whether it
    returns or raises. *)
Definition leads {A} (I J : state -> Prop) (m : M A) : Prop :=
  forall st, I st -> J (snd (m st)).

(** What the database says of an address: the code the reader returns,
    [None] when it raises, returns no code, or was not loaded. *)
Definition database_country (W : world) (ip : option string) : option string :=
  match _GEOIP_READER W with
  | Some reader => returned (reader ip)
  | None => None
  end.

(** Every cached entry is what the database says of its address. *)
Definition cache_agrees (W : world) (st : state) : Prop :=
  map_Forall (fun ip v => v = database_country W ip) (_IP_COUNTRY_CACHE st).

Definition local_destination (L : ipaddress) (pkt : packet) : bool :=
  match is_local_ip L (dst_addr pkt) with
  | Ok b => b
  | Raise _ => false
  end.

(** The packets the chain lets through, the country being the one of
    the database. *)
Definition allowed (L : ipaddress) (W : world) (pkt : packet) : bool :=
  match decide_chain (local_destination L pkt) (dst_port pkt)
          (database_country W (dst_addr pkt)) with
  | Allow => true
  | Drop => false
  end.

(** The packets a script hands to the loop: those yielded before the
    first [next] that raises. *)
Fixpoint yielded (script : list recv_event) : list packet :=
  match script with
  | [] => []
  | Yields (Some pkt) :: rest => pkt :: yielded rest
  | Yields None :: rest => yielded rest
  | RecvRaises :: _ => []
  end.

(** The line printed for a packet that reached the country test. *)
Definition decision_report (pkt : packet) (c : option string) : message :=
  if blocked_country c _BLOCK_COUNTRIES
  then MsgBlocked (dst_addr pkt) (dst_port pkt) (py_or c "Unknown")
  else MsgAllowed (dst_addr pkt) (dst_port pkt) (py_or c "Unknown").

Definition is_recv (e : event) : bool :=
  match e with EvRecv => true | _ => false end.

Definition is_stop (e : event) : bool :=
  match e with EvStop => true | _ => false end.

Definition is_send (e : event) : bool :=
  match e with EvSend _ => true | _ => false end.

(** Events of a failed setup: lines printed, the attempt to open, and
    the write of the flag. *)
Definition setup_event (e : event) : bool :=
  match e with
  | EvPrint _ | EvOpen | EvStop => true
  | _ => false
  end.

Fixpoint recvs (t : list event) : nat :=
  match t with
  | [] => 0%nat
  | e :: t' => ((if is_recv e then 1 else 0) + recvs t')%nat
  end.

(** The calls of [recv] after the first write [RUNNING = False]. *)
Fixpoint recvs_after_stop (t : list event) : nat :=
  match t with
  | [] => 0%nat
  | e :: t' => if is_stop e then recvs t' else recvs_after_stop t'
  end.

Definition stopped_in (t : list event) : bool := existsb is_stop t.

(** No [recv] was called since the flag went down, and the flag is up
    unless the trace shows it going down. *)
Definition no_recv_since_stop (st : state) : Prop :=
  recvs_after_stop (trace st) = 0%nat
  /\ (RUNNING st = true -> stopped_in (trace st) = false).

(** Events other than a call of [recv] and the write of the flag. *)
Definition quiet_event (e : event) : bool := negb (is_recv e) && negb (is_stop e).

(** At most one [recv] was called since the flag went down. *)
Definition one_recv_since_stop (st : state) : Prop :=
  (recvs_after_stop (trace st) <= 1)%nat.

(** The database file is there and at most thirty days old at the
    next reading of the clock. *)
Definition fresh_on_disk (SW : startup_world) (st : startup_state) : Prop :=
  exists f, disk st = Some f /\ now SW (now_calls st) - modified f <= thirty_days.

Definition retrievals (out : list startup_event) : nat :=
  length (omap (fun e => match e with StRetrieve => Some tt | _ => None end) out).


(** A database file of the examples, last written at the given time. *)
Definition sample_file (t : Z) : geoip_file :=
  {| modified := t; database := Some sample_db |}.

(** The clock reads thirty days, and every download fails and leaves
    the disk as it is. *)
Definition offline_world : startup_world := {|
  now := fun _ => thirty_days;
  urlretrieve := fun on_disk => RetrieveRaises on_disk
|}.

(** The clock reads thirty-one days, and every download succeeds. *)
Definition online_world : startup_world := {|
  now := fun _ => 31 * microseconds_per_day;
  urlretrieve := fun _ => Retrieved (sample_file (31 * microseconds_per_day))
|}.

Definition startup_with (f : option geoip_file) : startup_state :=
  {| disk := f; now_calls := 0%nat; output := [] |}.

(** The packet the capture stops at: readable, with a destination that
    is not local and a source port in the range. *)
Definition fortnite_packet (L : ipaddress) (p : Sniffer.captured) : bool :=
  match Sniffer.udp_srcport p, Sniffer.ip_dst p with
  | Ok src_port, Ok dst_ip =>
      match Sniffer.is_local_ip L (Some dst_ip) with
      | Ok false => Sniffer.FORTNITE_PORT_RANGE src_port
      | _ => false
      end
  | _, _ => false
  end.

Definition destination (p : Sniffer.captured) : string :=
  match Sniffer.ip_dst p with
  | Ok dst_ip => dst_ip
  | Raise _ => ""
  end.


(** ** Properties *)

(** *** The address predicate *)

Lemma is_local_ip_eq (L : ipaddress) (ip : option string) :
  is_local_ip L ip =
  Ok (match ip_address L ip with
      | Ok o => is_private L o || is_loopback L o || is_link_local L o
      | Raise _ => false
      end).
Proof.
  unfold is_local_ip, try_except.
  destruct (ip_address L ip) as [o|e]; reflexivity.
Qed.

(** C8: [is_local_ip] of geoblock.py returns on every input, never
    raising: the disjunction of the three address properties when the
    input parses, and false when parsing raises, whatever the
    exception. It is a function of its argument alone. *)
Theorem is_local_ip_never_raises (L : ipaddress) (ip : option string) :
  is_local_ip L ip =
  Ok (match ip_address L ip with
      | Ok o => is_private L o || is_loopback L o || is_link_local L o
      | Raise _ => false
      end).
Proof. apply is_local_ip_eq. Qed.

(** C9: the predicate of sniffer.py returns the same boolean as the one
    of geoblock.py on every input, false on the unparseable ones. The
    handler of sniffer.py catches [ValueError] only; the two agree
    because that is what [ip_address] raises. *)
Theorem sniffer_is_local_ip_agrees (L : ipaddress) (ip : option string) :
  Sniffer.is_local_ip L ip = is_local_ip L ip.
Proof.
  rewrite is_local_ip_eq.
  unfold Sniffer.is_local_ip, try_except_ValueError.
  destruct (ip_address L ip) as [o|e] eqn:E.
  - destruct (is_private L o), (is_loopback L o), (is_link_local L o); reflexivity.
  - apply ip_address_raises in E. subst e. reflexivity.
Qed.

(** *** The port window *)

Lemma outside_monitored_range_false (port : option Z) :
  outside_monitored_range port = false <->
  exists p, port = Some p /\ MIN_DST_PORT < p <= MAX_DST_PORT.
Proof.
  destruct port as [p|]; simpl.
  - rewrite orb_false_iff, Z.leb_gt, Z.gtb_ltb, Z.ltb_ge. split.
    + intros [H1 H2]. exists p. split; [reflexivity | lia].
    + intros (q & [= <-] & H). lia.
  - split; [discriminate | intros (q & [=] & _)].
Qed.

Lemma outside_monitored_range_in_window (port : option Z) :
  negb (outside_monitored_range port) = in_window port MIN_DST_PORT MAX_DST_PORT.
Proof.
  destruct port as [p|]; simpl; [|reflexivity].
  rewrite negb_orb, Z.gtb_ltb, <- Z.ltb_antisym, <- Z.leb_antisym. reflexivity.
Qed.

(** C3: the packet is inside the monitored window, that is, the test of
    line 134 is false, exactly when the port is present and
    [MIN_DST_PORT < port <= MAX_DST_PORT]; an absent port is outside;
    15000 and 16000 are outside, 15001 and 15999 inside. *)
Theorem port_window_bounds :
  (forall port : option Z,
     outside_monitored_range port = false <->
     exists p, port = Some p /\ 15000 < p <= 15999)
  /\ (forall port : option Z,
        negb (outside_monitored_range port) = in_window port 15000 15999)
  /\ outside_monitored_range None = true
  /\ outside_monitored_range (Some 15000) = true
  /\ outside_monitored_range (Some 15001) = false
  /\ outside_monitored_range (Some 15999) = false
  /\ outside_monitored_range (Some 16000) = true.
Proof.
  split; [|split; [|repeat split]].
  - apply outside_monitored_range_false.
  - apply outside_monitored_range_in_window.
Qed.

(** *** The shutdown handler and signal delivery *)

Lemma signal_stop_eq (W : world) (st : state) :
  _signal_stop W st = (Ok tt, stopped st).
Proof.
  unfold _signal_stop, stopped, bind, modify, gets, catch, close_call, ret.
  cbn. destruct (CURRENT_DIVERT st); [|reflexivity].
  destruct (close_ok W _); reflexivity.
Qed.

(** C7: the handler sets the flag to false, then calls [close] when a
    handle is published and only then, and returns whether or not
    [close] raised; it touches neither the handle reference nor the
    cache. *)
Theorem signal_stop_never_fails (W : world) (st : state) :
  exists st',
    _signal_stop W st = (Ok tt, st')
    /\ RUNNING st' = false
    /\ trace st' =
       trace st ++ EvStop :: match CURRENT_DIVERT st with
                             | Some _ => [EvClose]
                             | None => []
                             end
    /\ CURRENT_DIVERT st' = CURRENT_DIVERT st
    /\ _IP_COUNTRY_CACHE st' = _IP_COUNTRY_CACHE st.
Proof.
  exists (stopped st). split; [apply signal_stop_eq|].
  unfold stopped. destruct (CURRENT_DIVERT st) eqn:E; cbn; rewrite ?E;
    repeat split; try reflexivity.
  rewrite <- app_assoc. reflexivity.
Qed.

Lemma tick_eq (W : world) (st : state) : tick W st = (Ok tt, after_tick W st).
Proof.
  unfold tick, after_tick. destruct (sigint W (clock st)); [|reflexivity].
  apply signal_stop_eq.
Qed.

Ltac tick_cases W st :=
  unfold after_tick, signal_events, stopped; cbn;
  destruct (sigint W (clock st)); cbn;
  destruct (CURRENT_DIVERT st) eqn:?; cbn;
  rewrite <- ?app_assoc, ?app_nil_r, ?andb_true_r, ?andb_false_r;
  try reflexivity; try assumption.

Lemma after_tick_trace W st :
  trace (after_tick W st) = trace st ++ signal_events W st.
Proof. tick_cases W st. Qed.

Lemma after_tick_RUNNING W st :
  RUNNING (after_tick W st) = RUNNING st && negb (sigint W (clock st)).
Proof. tick_cases W st. Qed.

Lemma after_tick_CURRENT_DIVERT W st :
  CURRENT_DIVERT (after_tick W st) = CURRENT_DIVERT st.
Proof. tick_cases W st. Qed.

Lemma after_tick_cache W st :
  _IP_COUNTRY_CACHE (after_tick W st) = _IP_COUNTRY_CACHE st.
Proof. tick_cases W st. Qed.

Lemma after_tick_clock W st : clock (after_tick W st) = S (clock st).
Proof. tick_cases W st. Qed.

Lemma after_tick_stopped W st :
  RUNNING st = false -> RUNNING (after_tick W st) = false.
Proof. intros H. rewrite after_tick_RUNNING, H. reflexivity. Qed.

Lemma sends_app t1 t2 : sends (t1 ++ t2) = sends t1 ++ sends t2.
Proof. apply omap_app. Qed.

Lemma queries_app t1 t2 : queries (t1 ++ t2) = queries t1 ++ queries t2.
Proof. apply omap_app. Qed.

Lemma prints_app t1 t2 : prints (t1 ++ t2) = prints t1 ++ prints t2.
Proof. apply omap_app. Qed.

Lemma signal_events_sends W st : sends (signal_events W st) = [].
Proof.
  unfold signal_events. destruct (sigint W (clock st)); [|reflexivity].
  destruct (CURRENT_DIVERT st); reflexivity.
Qed.

Lemma signal_events_queries W st : queries (signal_events W st) = [].
Proof.
  unfold signal_events. destruct (sigint W (clock st)); [|reflexivity].
  destruct (CURRENT_DIVERT st); reflexivity.
Qed.

Lemma signal_events_prints W st : prints (signal_events W st) = [].
Proof.
  unfold signal_events. destruct (sigint W (clock st)); [|reflexivity].
  destruct (CURRENT_DIVERT st); reflexivity.
Qed.

(** *** The statements, as equations *)

Lemma print_eq W m st :
  print W m st = (Ok tt, record (EvPrint m) (after_tick W st)).
Proof. unfold print, bind. rewrite tick_eq. reflexivity. Qed.

Lemma read_RUNNING_eq W st :
  read_RUNNING W st = (Ok (RUNNING (after_tick W st)), after_tick W st).
Proof. unfold read_RUNNING, bind. rewrite tick_eq. reflexivity. Qed.

Lemma send_eq W pkt st :
  send W pkt st =
  (if send_ok W (S (clock st)) then Ok tt else Raise OtherException,
   record (EvSend pkt) (after_tick W st)).
Proof.
  unfold send, bind. rewrite tick_eq. cbn. rewrite after_tick_clock.
  destruct (send_ok W (S (clock st))); reflexivity.
Qed.

Lemma open_eq W st :
  open W st =
  (if open_ok W then Ok WinDivertHandle else Raise OtherException,
   record EvOpen (after_tick W st)).
Proof.
  unfold open, bind. rewrite tick_eq. cbn. destruct (open_ok W); reflexivity.
Qed.

Lemma close_eq W st :
  close W st =
  (if close_ok W (S (clock st)) then Ok tt else Raise OtherException,
   record EvClose (after_tick W st)).
Proof.
  unfold close, bind. rewrite tick_eq. unfold close_call.
  rewrite after_tick_clock. destruct (close_ok W (S (clock st))); reflexivity.
Qed.

Lemma next_eq W ev st :
  next W ev st =
  (match ev with Yields pkt => Ok pkt | RecvRaises => Raise OtherException end,
   record EvRecv (after_tick W st)).
Proof.
  unfold next, bind. rewrite tick_eq. cbn. destruct ev; reflexivity.
Qed.

Lemma query_eq W reader ip st :
  query W reader ip st = (reader ip, record (EvQuery ip) (after_tick W st)).
Proof. unfold query, bind. rewrite tick_eq. reflexivity. Qed.

Lemma after_tick_sends W st : sends (trace (after_tick W st)) = sends (trace st).
Proof.
  rewrite after_tick_trace, sends_app, signal_events_sends. apply app_nil_r.
Qed.

Lemma after_tick_queries W st : queries (trace (after_tick W st)) = queries (trace st).
Proof.
  rewrite after_tick_trace, queries_app, signal_events_queries. apply app_nil_r.
Qed.

Lemma after_tick_prints W st : prints (trace (after_tick W st)) = prints (trace st).
Proof.
  rewrite after_tick_trace, prints_app, signal_events_prints. apply app_nil_r.
Qed.

Lemma record_sends e st :
  sends (trace (record e st)) =
  sends (trace st) ++ match e with EvSend p => [p] | _ => [] end.
Proof. cbn. rewrite sends_app. destruct e; reflexivity. Qed.

Lemma record_queries e st :
  queries (trace (record e st)) =
  queries (trace st) ++ match e with EvQuery ip => [ip] | _ => [] end.
Proof. cbn. rewrite queries_app. destruct e; reflexivity. Qed.

Lemma record_prints e st :
  prints (trace (record e st)) =
  prints (trace st) ++ match e with EvPrint m => [m] | _ => [] end.
Proof. cbn. rewrite prints_app. destruct e; reflexivity. Qed.

Lemma send_sends W pkt st :
  sends (trace (snd (send W pkt st))) = sends (trace st) ++ [pkt].
Proof. rewrite send_eq. cbn [snd]. rewrite record_sends, after_tick_sends. reflexivity. Qed.

Lemma print_sends W m st :
  sends (trace (snd (print W m st))) = sends (trace st).
Proof.
  rewrite print_eq. cbn [snd]. rewrite record_sends, after_tick_sends. apply app_nil_r.
Qed.

(** *** The country resolver *)

Lemma get_ip_country_eq (W : world) (ip : option string) (st : state) :
  get_ip_country W ip st =
  match default None (_IP_COUNTRY_CACHE st !! ip) with
  | Some c => (Ok (Some c), st)
  | None =>
      match _GEOIP_READER W with
      | Some reader =>
          let st1 := record (EvQuery ip) (after_tick W st) in
          let country := returned (reader ip) in
          (Ok country, set_cache (<[ip := country]> (_IP_COUNTRY_CACHE st1)) st1)
      | None => (Ok None, set_cache (<[ip := None]> (_IP_COUNTRY_CACHE st)) st)
      end
  end.
Proof.
  unfold get_ip_country, bind, gets, modify, catch, ret. cbn.
  destruct (default None (_IP_COUNTRY_CACHE st !! ip)); [reflexivity|].
  destruct (_GEOIP_READER W) as [reader|]; [|reflexivity].
  rewrite query_eq. destruct (reader ip) as [v|e]; reflexivity.
Qed.

(** A call of [get_ip_country] returns, re-injects nothing, prints
    nothing, and leaves the flag and the handle reference to the signal
    handler. *)
Lemma get_ip_country_frame (W : world) (ip : option string) (st : state) :
  exists c st',
    get_ip_country W ip st = (Ok c, st')
    /\ sends (trace st') = sends (trace st)
    /\ prints (trace st') = prints (trace st)
    /\ (RUNNING st = false -> RUNNING st' = false).
Proof.
  rewrite get_ip_country_eq.
  destruct (default None (_IP_COUNTRY_CACHE st !! ip)) as [c|].
  { exists (Some c), st. auto. }
  destruct (_GEOIP_READER W) as [reader|].
  - eexists _, _. split; [reflexivity|]. cbn.
    rewrite after_tick_trace, !sends_app, !prints_app,
      signal_events_sends, signal_events_prints. cbn.
    rewrite !app_nil_r. repeat split. apply after_tick_stopped.
  - eexists _, _. split; [reflexivity|]. cbn. auto.
Qed.

(** A resolved country is served from the cache: the second call
    returns it again and leaves the state, and so the trace, as it
    is. *)
Lemma get_ip_country_hit (W : world) (ip : option string) (st st1 : state) (c : string) :
  get_ip_country W ip st = (Ok (Some c), st1) ->
  get_ip_country W ip st1 = (Ok (Some c), st1).
Proof.
  rewrite !get_ip_country_eq.
  destruct (default None (_IP_COUNTRY_CACHE st !! ip)) as [c0|] eqn:E.
  { intros [= -> <-]. rewrite E. reflexivity. }
  destruct (_GEOIP_READER W) as [reader|]; [|discriminate].
  cbn. intros [= Hc <-]. cbn. rewrite lookup_insert_eq. cbn.
  rewrite Hc. reflexivity.
Qed.

(** C2, at the failing input: the database is loaded and raises for the
    address 100.64.0.1. The first call returns [None] and stores it; the
    second call finds the stored [None], takes it for a miss, and queries
    the database again. *)
Theorem get_ip_country_retries_failed_lookup :
  let ip := Some "100.64.0.1" in
  let '(r1, st1) := get_ip_country quiet_world ip initial in
  let '(r2, st2) := get_ip_country quiet_world ip st1 in
  r1 = Ok None
  /\ _IP_COUNTRY_CACHE st1 !! ip = Some None
  /\ queries (trace st1) = [ip]
  /\ r2 = Ok None
  /\ queries (trace st2) = [ip; ip].
Proof. vm_compute. repeat split. Qed.

(** *** The decision chain *)

Lemma elem_of_BLOCK_COUNTRIES (s : string) :
  s ∈ _BLOCK_COUNTRIES <-> s = "GB" \/ s = "DE".
Proof. unfold _BLOCK_COUNTRIES. set_solver. Qed.

(** [country.upper() in _BLOCK_COUNTRIES] ignores the letter case of the
    country: the codes of the set are upper case already. *)
Lemma upper_in_BLOCK_COUNTRIES (s : string) :
  upper s ∈ _BLOCK_COUNTRIES <->
  set_Exists (fun b => upper b = upper s) _BLOCK_COUNTRIES.
Proof.
  unfold set_Exists. split.
  - intros H. exists (upper s). split; [exact H|].
    apply elem_of_BLOCK_COUNTRIES in H as [-> | ->]; reflexivity.
  - intros (b & Hb & Heq). rewrite <- Heq.
    apply elem_of_BLOCK_COUNTRIES in Hb as [-> | ->];
      apply elem_of_BLOCK_COUNTRIES; [left | right]; reflexivity.
Qed.

(** The test of line 139 on the value of line 138. *)
Lemma blocked_test (c : option string) :
  truthy (Some (py_or c "Unknown"))
  && bool_decide (upper (py_or c "Unknown") ∈ _BLOCK_COUNTRIES)
  = blocked_country c _BLOCK_COUNTRIES.
Proof.
  assert (Hunknown :
    truthy (Some "Unknown") && bool_decide (upper "Unknown" ∈ _BLOCK_COUNTRIES) = false).
  { rewrite bool_decide_eq_false_2; [reflexivity|].
    rewrite elem_of_BLOCK_COUNTRIES. cbn. intros [H | H]; discriminate H. }
  destruct c as [s|]; cbn [py_or blocked_country]; [|exact Hunknown].
  destruct (String.eqb s "") eqn:E.
  - etransitivity; [exact Hunknown|].
    apply String.eqb_eq in E. subst s.
    symmetry. apply bool_decide_eq_false_2.
    rewrite <- upper_in_BLOCK_COUNTRIES, elem_of_BLOCK_COUNTRIES.
    cbn. intros [H | H]; discriminate H.
  - cbn [truthy]. rewrite E. cbn [negb andb].
    apply bool_decide_ext, upper_in_BLOCK_COUNTRIES.
Qed.

(** C1: what [handle_packet] re-injects is what the ordered chain says:
    a local destination is re-injected; otherwise a port that is absent
    or outside the window is; otherwise a packet whose resolved country
    is, letter case ignored, in the blocked set is not; otherwise, an
    unresolved country included, it is. The resolved country is what
    [get_ip_country] returns in the state the packet arrives in. *)
Theorem handle_packet_follows_chain (L : ipaddress) (W : world) (pkt : packet) (st : state) :
  exists local,
    is_local_ip L (dst_addr pkt) = Ok local
    /\ sends (trace (snd (handle_packet L W pkt st))) =
       sends (trace st) ++
       reinjected
         (decide_chain local (dst_port pkt)
            (returned (fst (get_ip_country W (dst_addr pkt) st))))
         pkt.
Proof.
  rewrite is_local_ip_eq. eexists. split; [reflexivity|].
  unfold handle_packet, bind, lift. rewrite is_local_ip_eq.
  unfold decide_chain. rewrite <- outside_monitored_range_in_window.
  destruct (match ip_address L (dst_addr pkt) with Ok _ => _ | Raise _ => _ end).
  { apply send_sends. }
  destruct (outside_monitored_range (dst_port pkt)); cbn [negb].
  { apply send_sends. }
  destruct (get_ip_country_frame W (dst_addr pkt) st) as (c & st1 & -> & Hs & _).
  cbn [fst returned]. rewrite blocked_test.
  destruct (blocked_country c _BLOCK_COUNTRIES); cbn [reinjected].
  - rewrite print_sends, app_nil_r. exact Hs.
  - rewrite print_eq, send_sends, record_sends, after_tick_sends, Hs, app_nil_r.
    reflexivity.
Qed.

(** *** The loop: exits and shutdown *)

(** C5: [block_countries_for_process] returns, from every state, in
    every world and on every script, with [CURRENT_DIVERT] cleared: when
    the handle fails to open, when [next] raises, when the loop stops on
    the flag, when the script ends, and when [close] raises in
    [__exit__]. *)
Theorem loop_always_clears_handle (L : ipaddress) (W : world)
    (script : list recv_event) (st : state) :
  exists st',
    block_countries_for_process L W script st = (Ok tt, st')
    /\ CURRENT_DIVERT st' = None.
Proof.
  unfold block_countries_for_process, bind. rewrite !print_eq.
  unfold try_finally, catch.
  destruct (with_divert L W script _) as [[[]|e] st1].
  - rewrite tick_eq. cbn. eexists. split; reflexivity.
  - rewrite read_RUNNING_eq.
    destruct (RUNNING (after_tick W st1)).
    + rewrite print_eq, tick_eq. cbn. eexists. split; reflexivity.
    + cbn. rewrite tick_eq. cbn. eexists. split; reflexivity.
Qed.

(** C6: when the flag is down at the start of a turn, the loop under
    its handler returns without a further turn: it re-injects nothing
    and queries nothing; it prints the shutdown line when [next] yields,
    and prints nothing, the error being suppressed, when [next] raises
    or the script is over; the flag stays down. *)
Theorem no_reinjection_after_stop (L : ipaddress) (W : world)
    (script : list recv_event) (st : state) :
  RUNNING st = false ->
  exists st',
    guarded_loop L W script st = (Ok tt, st')
    /\ sends (trace st') = sends (trace st)
    /\ queries (trace st') = queries (trace st)
    /\ prints (trace st') =
       prints (trace st) ++ match script with
                            | Yields _ :: _ => [MsgShuttingDown]
                            | _ => []
                            end
    /\ RUNNING st' = false.
Proof.
  intros Hstop. unfold guarded_loop, catch.
  destruct script as [|[pkt|] rest]; cbn [receive_loop].
  - exists st. rewrite app_nil_r. auto.
  - unfold bind. rewrite next_eq. unfold iteration, bind.
    rewrite read_RUNNING_eq.
    assert (H1 : RUNNING (after_tick W (record EvRecv (after_tick W st))) = false).
    { apply after_tick_stopped. cbn. apply after_tick_stopped, Hstop. }
    rewrite H1. cbn [negb]. rewrite print_eq. cbn [ret].
    eexists. split; [reflexivity|].
    rewrite !record_sends, !record_queries, !record_prints,
      !after_tick_sends, !after_tick_queries, !after_tick_prints,
      !record_sends, !record_queries, !record_prints,
      !after_tick_sends, !after_tick_queries, !after_tick_prints,
      !app_nil_r.
    repeat split. cbn. apply after_tick_stopped. exact H1.
  - unfold bind. rewrite next_eq, read_RUNNING_eq.
    assert (H1 : RUNNING (after_tick W (record EvRecv (after_tick W st))) = false).
    { apply after_tick_stopped. cbn. apply after_tick_stopped, Hstop. }
    rewrite H1. cbn [ret].
    eexists. split; [reflexivity|].
    rewrite !after_tick_sends, !after_tick_queries, !after_tick_prints,
      !record_sends, !record_queries, !record_prints,
      !after_tick_sends, !after_tick_queries, !after_tick_prints,
      !app_nil_r.
    repeat split. exact H1.
Qed.

Lemma no_reinjection_after_stop_witness :
  let st := set_RUNNING false initial in
  let script := [Yields (Some (sample_packet 1 "8.8.8.8" 15500)); RecvRaises] in
  RUNNING st = false
  /\ exists st',
       guarded_loop DottedQuad.lib quiet_world script st = (Ok tt, st')
       /\ sends (trace st') = sends (trace st)
       /\ queries (trace st') = queries (trace st)
       /\ prints (trace st') = prints (trace st) ++ [MsgShuttingDown]
       /\ RUNNING st' = false.
Proof.
  split; [reflexivity|].
  apply (no_reinjection_after_stop DottedQuad.lib quiet_world
           [Yields (Some (sample_packet 1 "8.8.8.8" 15500)); RecvRaises]
           (set_RUNNING false initial)).
  reflexivity.
Defined.

(** *** Properties kept by the whole run *)

Lemma preserves_ret {A} (I : state -> Prop) (a : A) : preserves I (ret a).
Proof. intros st H. exact H. Qed.

Lemma preserves_lift {A} (I : state -> Prop) (r : result A) : preserves I (lift r).
Proof. intros st H. exact H. Qed.

Lemma preserves_bind {A B} (I : state -> Prop) (m : M A) (k : A -> M B) :
  preserves I m -> (forall a, preserves I (k a)) -> preserves I (bind m k).
Proof.
  intros Hm Hk st H. unfold bind. specialize (Hm st H).
  destruct (m st) as [[a|e] st1]; cbn in *; [apply Hk|]; exact Hm.
Qed.

Lemma preserves_catch {A} (I : state -> Prop) (m : M A) (h : exn -> M A) :
  preserves I m -> (forall e, preserves I (h e)) -> preserves I (catch m h).
Proof.
  intros Hm Hh st H. unfold catch. specialize (Hm st H).
  destruct (m st) as [[a|e] st1]; cbn in *; [|apply Hh]; exact Hm.
Qed.

Lemma preserves_try_finally {A} (I : state -> Prop) (m : M A) (f : M unit) :
  preserves I m -> preserves I f -> preserves I (try_finally m f).
Proof.
  intros Hm Hf st H. unfold try_finally. specialize (Hm st H).
  destruct (m st) as [r st1]. cbn in Hm. specialize (Hf st1 Hm).
  destruct (f st1) as [[[]|e] st2]; exact Hf.
Qed.

Lemma preserves_with {A} (I : state -> Prop) (enter : M handle)
    (body : handle -> M A) (exit : M unit) :
  preserves I enter -> (forall w, preserves I (body w)) -> preserves I exit ->
  preserves I (with_ enter body exit).
Proof.
  intros He Hb Hx. unfold with_. apply preserves_bind; [exact He|].
  intros w st H. specialize (Hb w st H).
  destruct (body w st) as [r st1]. cbn in Hb.
  apply (preserves_bind I exit (fun _ => lift r) Hx); [|exact Hb].
  intros _. apply preserves_lift.
Qed.

Section Preservation.
Variable L : ipaddress.
Variable W : world.
Variable I : state -> Prop.
Hypothesis I_set_clock : forall n st, I st -> I (set_clock n st).
Hypothesis I_stop : forall st, I st -> I (set_RUNNING false st).
Hypothesis I_publish : forall h st, I st -> I (set_CURRENT_DIVERT h st).
Hypothesis I_record : forall e st, harmless e = true -> I st -> I (record e st).
Hypothesis I_handle_packet : forall pkt, preserves I (handle_packet L W pkt).

Lemma kept_by_after_tick st : I st -> I (after_tick W st).
Proof.
  intros H. unfold after_tick, stopped.
  destruct (sigint W (clock st)); [|apply I_set_clock, H]. cbn.
  destruct (CURRENT_DIVERT st); repeat (apply I_record; [reflexivity|]);
    apply I_stop, I_set_clock, H.
Qed.

Lemma kept_by_tick : preserves I (tick W).
Proof. intros st H. rewrite tick_eq. apply kept_by_after_tick, H. Qed.

Lemma kept_by_print m : is_blocked_message m = false -> preserves I (print W m).
Proof.
  intros Hm st H. rewrite print_eq. apply I_record.
  - cbn. rewrite Hm. reflexivity.
  - apply kept_by_after_tick, H.
Qed.

Lemma kept_by_read_RUNNING : preserves I (read_RUNNING W).
Proof. intros st H. rewrite read_RUNNING_eq. apply kept_by_after_tick, H. Qed.

Lemma kept_by_send pkt : preserves I (send W pkt).
Proof.
  intros st H. rewrite send_eq. apply I_record; [reflexivity|].
  apply kept_by_after_tick, H.
Qed.

Lemma kept_by_open : preserves I (open W).
Proof.
  intros st H. rewrite open_eq. apply I_record; [reflexivity|].
  apply kept_by_after_tick, H.
Qed.

Lemma kept_by_close : preserves I (close W).
Proof.
  intros st H. rewrite close_eq. apply I_record; [reflexivity|].
  apply kept_by_after_tick, H.
Qed.

Lemma kept_by_next ev : preserves I (next W ev).
Proof.
  intros st H. rewrite next_eq. apply I_record; [reflexivity|].
  apply kept_by_after_tick, H.
Qed.

Lemma kept_by_on_packet_error pkt : preserves I (on_packet_error W pkt).
Proof.
  unfold on_packet_error. apply preserves_bind; [apply kept_by_read_RUNNING|].
  intros running. destruct running; cbn [negb]; [|apply preserves_ret].
  apply preserves_bind; [apply kept_by_print; reflexivity|]. intros _.
  apply preserves_bind; [|intros _; apply preserves_ret].
  apply preserves_catch; [apply kept_by_send|]. intros _. apply preserves_ret.
Qed.

Lemma kept_by_try_handle_packet pkt : preserves I (try_handle_packet L W pkt).
Proof.
  unfold try_handle_packet. apply preserves_catch.
  - apply preserves_bind; [apply I_handle_packet|]. intros _. apply preserves_ret.
  - intros _. apply kept_by_on_packet_error.
Qed.

Lemma kept_by_iteration pkt : preserves I (iteration L W pkt).
Proof.
  unfold iteration. apply preserves_bind; [apply kept_by_read_RUNNING|].
  intros running. destruct running; cbn [negb].
  - destruct pkt as [pkt|]; [apply kept_by_try_handle_packet | apply preserves_ret].
  - apply preserves_bind; [apply kept_by_print; reflexivity|].
    intros _. apply preserves_ret.
Qed.

Lemma kept_by_receive_loop script : preserves I (receive_loop L W script).
Proof.
  induction script as [|ev rest IH]; cbn [receive_loop]; [apply preserves_ret|].
  apply preserves_bind; [apply kept_by_next|]. intros pkt.
  apply preserves_bind; [apply kept_by_iteration|].
  intros [|]; [exact IH | apply preserves_ret].
Qed.

Lemma kept_by_guarded_loop script : preserves I (guarded_loop L W script).
Proof.
  unfold guarded_loop. apply preserves_catch; [apply kept_by_receive_loop|].
  intros _. apply preserves_bind; [apply kept_by_read_RUNNING|].
  intros [|]; [apply kept_by_print; reflexivity | apply preserves_ret].
Qed.

Lemma kept_by_with_divert script : preserves I (with_divert L W script).
Proof.
  unfold with_divert. apply preserves_with.
  - apply kept_by_open.
  - intros w. apply preserves_bind; [apply kept_by_tick|]. intros _.
    apply preserves_bind; [|intros _; apply kept_by_guarded_loop].
    intros st H. apply I_publish, H.
  - apply kept_by_close.
Qed.

Lemma kept_by_block_countries_for_process script :
  preserves I (block_countries_for_process L W script).
Proof.
  unfold block_countries_for_process.
  do 3 (apply preserves_bind; [apply kept_by_print; reflexivity|]; intros _).
  apply preserves_try_finally.
  - apply preserves_catch; [apply kept_by_with_divert|].
    intros _. apply preserves_bind; [apply kept_by_read_RUNNING|].
    intros [|]; [apply kept_by_print; reflexivity | apply preserves_ret].
  - apply preserves_bind; [apply kept_by_tick|]. intros _.
    intros st H. apply I_publish, H.
Qed.

End Preservation.

(** *** Running without the database *)

Lemma get_ip_country_no_database (W : world) (ip : option string) (st : state) :
  _GEOIP_READER W = None ->
  unresolved_cache st ->
  get_ip_country W ip st =
  (Ok None, set_cache (<[ip := None]> (_IP_COUNTRY_CACHE st)) st).
Proof.
  intros Hreader Hcache. rewrite get_ip_country_eq, Hreader.
  destruct (_IP_COUNTRY_CACHE st !! ip) as [v|] eqn:E; [|reflexivity].
  apply (map_Forall_lookup_1 _ _ _ _ Hcache) in E. subst v. reflexivity.
Qed.

Lemma unresolved_cache_insert (ip : option string) (st : state) :
  unresolved_cache st ->
  unresolved_cache (set_cache (<[ip := None]> (_IP_COUNTRY_CACHE st)) st).
Proof. intros H. unfold unresolved_cache. cbn. apply map_Forall_insert_2; auto. Qed.

Lemma never_resolved_after_record (e : event) (st : state) :
  harmless e = true -> never_resolved st -> never_resolved (record e st).
Proof.
  intros He (Hc & Hq & Hp). repeat split.
  - exact Hc.
  - rewrite record_queries, Hq. destruct e; try reflexivity; discriminate He.
  - rewrite record_prints. apply Forall_app. split; [exact Hp|].
    destruct e; try constructor; [|constructor].
    cbn in He. apply negb_true_iff, He.
Qed.

Lemma handle_packet_no_database (L : ipaddress) (W : world) (pkt : packet) :
  _GEOIP_READER W = None -> preserves never_resolved (handle_packet L W pkt).
Proof.
  intros Hreader.
  assert (Hsend : preserves never_resolved (send W pkt)).
  { apply kept_by_send; auto using never_resolved_after_record. }
  unfold handle_packet. apply preserves_bind; [apply preserves_lift|].
  intros [|]; [exact Hsend|].
  destruct (outside_monitored_range (dst_port pkt)); [exact Hsend|].
  intros st H. unfold bind.
  rewrite (get_ip_country_no_database W _ st Hreader (proj1 H)).
  rewrite blocked_test. cbn [blocked_country].
  apply (preserves_bind never_resolved (print W _) (fun _ => send W pkt)).
  - apply kept_by_print; auto using never_resolved_after_record.
  - intros _. exact Hsend.
  - destruct H as (Hc & Hq & Hp). repeat split; try assumption.
    apply unresolved_cache_insert, Hc.
Qed.

(** C4: when the database failed to load, [get_ip_country] returns
    [None] for every address and queries nothing, in every state whose
    cache holds unresolved entries only; in such a state a packet to a
    destination that is not local, on a port inside the window, is
    re-injected; and the run that starts in the initial state keeps
    such a cache, never queries the database and never reports a
    drop. *)
Theorem fail_open_without_database (L : ipaddress) (W : world) :
  _GEOIP_READER W = None ->
  (forall ip st,
     unresolved_cache st ->
     exists st',
       get_ip_country W ip st = (Ok None, st')
       /\ trace st' = trace st
       /\ unresolved_cache st')
  /\ (forall pkt st,
        unresolved_cache st ->
        is_local_ip L (dst_addr pkt) = Ok false ->
        outside_monitored_range (dst_port pkt) = false ->
        sends (trace (snd (handle_packet L W pkt st))) = sends (trace st) ++ [pkt])
  /\ (forall script,
        never_resolved (snd (block_countries_for_process L W script initial))).
Proof.
  intros Hreader. split; [|split].
  - intros ip st Hc. eexists. split; [apply get_ip_country_no_database; assumption|].
    split; [reflexivity | apply unresolved_cache_insert, Hc].
  - intros pkt st Hc Hlocal Hport. unfold handle_packet, bind, lift.
    rewrite Hlocal, Hport, (get_ip_country_no_database W _ st Hreader Hc), blocked_test.
    cbn [blocked_country]. rewrite print_eq, send_sends, record_sends, after_tick_sends.
    cbn. rewrite app_nil_r. reflexivity.
  - intros script. apply kept_by_block_countries_for_process.
    + intros n st H. exact H.
    + intros st H. exact H.
    + intros h st H. exact H.
    + apply never_resolved_after_record.
    + intros pkt. apply handle_packet_no_database, Hreader.
    + repeat split; [apply map_Forall_empty | constructor].
Qed.

Lemma fail_open_without_database_witness :
  _GEOIP_READER no_database_world = None
  /\ sends (trace (snd (handle_packet DottedQuad.lib no_database_world
                          (sample_packet 1 "5.1.1.1" 15500) initial)))
     = [sample_packet 1 "5.1.1.1" 15500]
  /\ never_resolved
       (snd (block_countries_for_process DottedQuad.lib no_database_world
               [Yields (Some (sample_packet 1 "5.1.1.1" 15500))] initial)).
Proof.
  split; [reflexivity|].
  destruct (fail_open_without_database DottedQuad.lib no_database_world eq_refl)
    as (_ & Hpacket & Hrun).
  split.
  - apply (Hpacket (sample_packet 1 "5.1.1.1" 15500) initial).
    + apply map_Forall_empty.
    + reflexivity.
    + reflexivity.
  - apply Hrun.
Defined.

(** *** An exception while a packet is handled *)

Lemma on_packet_error_eq (W : world) (pkt : packet) (st : state) :
  on_packet_error W pkt st =
  let st2 := after_tick W st in
  if RUNNING st2
  then (Ok Continue,
        record (EvSend pkt) (after_tick W (record (EvPrint MsgErrorHandlingPacket)
                                             (after_tick W st2))))
  else (Ok Break, st2).
Proof.
  unfold on_packet_error, bind. rewrite read_RUNNING_eq. cbn zeta.
  destruct (RUNNING (after_tick W st)); cbn [negb]; [|reflexivity].
  rewrite print_eq. unfold catch. rewrite send_eq.
  destruct (send_ok W _); reflexivity.
Qed.

(** C10: the loop has taken a packet with the flag up, and handling it
    raises. When the handler reads the flag as up, the inner [try]
    statement ends the turn normally: the error line is printed,
    [send] is called once more for the packet, whether or not that call
    raises, and the loop goes on with the rest of the script. When the
    handler reads the flag as down, nothing is printed or sent and the
    loop returns. *)
Theorem packet_error_fails_open (L : ipaddress) (W : world) (pkt : packet)
    (rest : list recv_event) (st0 st st1 st2 : state) (e : exn) (running : bool) :
  read_RUNNING W (snd (next W (Yields (Some pkt)) st0)) = (Ok true, st) ->
  handle_packet L W pkt st = (Raise e, st1) ->
  read_RUNNING W st1 = (Ok running, st2) ->
  exists st',
    try_handle_packet L W pkt st = (Ok (if running then Continue else Break), st')
    /\ prints (trace st') =
       prints (trace st1) ++ (if running then [MsgErrorHandlingPacket] else [])
    /\ sends (trace st') = sends (trace st1) ++ (if running then [pkt] else [])
    /\ receive_loop L W (Yields (Some pkt) :: rest) st0 =
       if running then receive_loop L W rest st' else (Ok tt, st').
Proof.
  intros Htop Hraise Hread.
  assert (Htry : try_handle_packet L W pkt st = on_packet_error W pkt st1).
  { unfold try_handle_packet, catch, bind. rewrite Hraise. reflexivity. }
  assert (Hloop : forall f st',
            try_handle_packet L W pkt st = (Ok f, st') ->
            receive_loop L W (Yields (Some pkt) :: rest) st0 =
            match f with
            | Continue => receive_loop L W rest st'
            | Break => (Ok tt, st')
            end).
  { intros f st' Hf. rewrite next_eq in Htop. cbn [snd] in Htop.
    cbn [receive_loop]. unfold bind at 1. rewrite next_eq.
    unfold bind, iteration, bind. rewrite Htop. cbn [negb]. rewrite Hf.
    destruct f; reflexivity. }
  rewrite read_RUNNING_eq in Hread. injection Hread as Hrun <-.
  rewrite Htry, on_packet_error_eq in *. cbn zeta in *. rewrite Hrun in *.
  destruct running.
  - eexists. split; [reflexivity|].
    rewrite record_prints, record_sends, after_tick_prints, after_tick_sends,
      record_prints, record_sends, !after_tick_prints, !after_tick_sends, !app_nil_r.
    repeat split. apply (Hloop Continue). reflexivity.
  - eexists. split; [reflexivity|].
    rewrite after_tick_prints, after_tick_sends, !app_nil_r.
    repeat split. apply (Hloop Break). reflexivity.
Qed.

Lemma packet_error_fails_open_witness :
  let W := failing_send_world in
  let pkt := sample_packet 1 "192.168.1.5" 15500 in
  let st := snd (read_RUNNING W (snd (next W (Yields (Some pkt)) initial))) in
  let st1 := snd (handle_packet DottedQuad.lib W pkt st) in
  handle_packet DottedQuad.lib W pkt st = (Raise OtherException, st1)
  /\ exists st',
       try_handle_packet DottedQuad.lib W pkt st = (Ok Continue, st')
       /\ prints (trace st') = prints (trace st1) ++ [MsgErrorHandlingPacket]
       /\ sends (trace st') = sends (trace st1) ++ [pkt]
       /\ receive_loop DottedQuad.lib W [Yields (Some pkt)] initial = (Ok tt, st').
Proof.
  split; [reflexivity|].
  apply (packet_error_fails_open DottedQuad.lib failing_send_world
           (sample_packet 1 "192.168.1.5" 15500) [] initial
           (snd (read_RUNNING failing_send_world
                   (snd (next failing_send_world
                           (Yields (Some (sample_packet 1 "192.168.1.5" 15500)))
                           initial))))
           (snd (handle_packet DottedQuad.lib failing_send_world
                   (sample_packet 1 "192.168.1.5" 15500)
                   (snd (read_RUNNING failing_send_world
                           (snd (next failing_send_world
                                   (Yields (Some (sample_packet 1 "192.168.1.5" 15500)))
                                   initial))))))
           (snd (read_RUNNING failing_send_world
                   (snd (handle_packet DottedQuad.lib failing_send_world
                           (sample_packet 1 "192.168.1.5" 15500)
                           (snd (read_RUNNING failing_send_world
                                   (snd (next failing_send_world
                                           (Yields (Some (sample_packet 1 "192.168.1.5" 15500)))
                                           initial))))))))
           OtherException true);
    reflexivity.
Defined.

(** *** The flag, once down, stays down *)

(** X10: nothing in the run raises the flag again: entered with
    [RUNNING] false, [block_countries_for_process] returns with
    [RUNNING] false, whatever the script and the world. *)
Lemma stop_flag_stays_down (L : ipaddress) (W : world)
    (script : list recv_event) (st : state) :
  RUNNING st = false ->
  RUNNING (snd (block_countries_for_process L W script st)) = false.
Proof.
  apply (kept_by_block_countries_for_process L W (fun s => RUNNING s = false));
    try (intros; assumption); try reflexivity.
  intros pkt. unfold handle_packet.
  assert (Hsend : preserves (fun s => RUNNING s = false) (send W pkt)).
  { intros s H. rewrite send_eq. cbn. apply after_tick_stopped, H. }
  assert (Hprint : forall m, preserves (fun s => RUNNING s = false) (print W m)).
  { intros m s H. rewrite print_eq. cbn. apply after_tick_stopped, H. }
  apply preserves_bind; [apply preserves_lift|]. intros [|]; [exact Hsend|].
  destruct (outside_monitored_range _); [exact Hsend|].
  apply preserves_bind.
  - intros s H. destruct (get_ip_country_frame W (dst_addr pkt) s) as (c & s' & -> & _ & _ & Hr).
    apply Hr, H.
  - intros c. destruct (_ && _); [apply Hprint|].
    apply preserves_bind; [apply Hprint | intros _; exact Hsend].
Qed.

Lemma stop_flag_stays_down_witness :
  let st := set_RUNNING false initial in
  let script := [Yields (Some (sample_packet 1 "8.8.8.8" 15500))] in
  RUNNING st = false
  /\ RUNNING (snd (block_countries_for_process DottedQuad.lib quiet_world script st))
     = false.
Proof.
  split; [reflexivity|].
  apply (stop_flag_stays_down DottedQuad.lib quiet_world
           [Yields (Some (sample_packet 1 "8.8.8.8" 15500))]
           (set_RUNNING false initial)).
  reflexivity.
Defined.

(** ** Further properties of geoblock.py *)

(** *** The cache of [get_ip_country] *)

Lemma get_ip_country_agrees (W : world) (ip : option string) (st : state) :
  cache_agrees W st ->
  exists st',
    get_ip_country W ip st = (Ok (database_country W ip), st')
    /\ cache_agrees W st'.
Proof.
  intros Hc. rewrite get_ip_country_eq.
  assert (Hins : forall v st1,
            _IP_COUNTRY_CACHE st1 = _IP_COUNTRY_CACHE st ->
            v = database_country W ip ->
            cache_agrees W (set_cache (<[ip := v]> (_IP_COUNTRY_CACHE st1)) st1)).
  { intros v st1 Hst1 Hv. unfold cache_agrees. cbn. rewrite Hst1.
    apply map_Forall_insert_2; [exact Hv | exact Hc]. }
  assert (Hmiss : match _GEOIP_READER W with
                  | Some reader => returned (reader ip)
                  | None => None
                  end = database_country W ip) by reflexivity.
  destruct (_IP_COUNTRY_CACHE st !! ip) as [[c|]|] eqn:E; cbn [default from_option id].
  - pose proof (map_Forall_lookup_1 _ _ _ _ Hc E) as Hv. cbn in Hv.
    rewrite <- Hv. exists st. auto.
  - rewrite <- Hmiss. destruct (_GEOIP_READER W) as [reader|] eqn:R; eexists;
      (split; [reflexivity|]); apply Hins;
      try (unfold database_country; rewrite R; reflexivity);
      try reflexivity; cbn; apply after_tick_cache.
  - rewrite <- Hmiss. destruct (_GEOIP_READER W) as [reader|] eqn:R; eexists;
      (split; [reflexivity|]); apply Hins;
      try (unfold database_country; rewrite R; reflexivity);
      try reflexivity; cbn; apply after_tick_cache.
Qed.

(** X1: a cache that agrees with the database, as the empty one does,
    never changes an answer: [get_ip_country] returns what the database
    says of the address, [None] when the reader raises, returns no code
    or was not loaded, and leaves a cache that still agrees. *)
Theorem get_ip_country_agrees_with_database (W : world) (ip : option string) (st : state) :
  cache_agrees W st ->
  exists st',
    get_ip_country W ip st = (Ok (database_country W ip), st')
    /\ cache_agrees W st'.
Proof. apply get_ip_country_agrees. Qed.

Lemma get_ip_country_agrees_with_database_witness :
  cache_agrees quiet_world initial
  /\ exists st',
       get_ip_country quiet_world (Some "5.1.1.1") initial = (Ok (Some "DE"), st')
       /\ cache_agrees quiet_world st'.
Proof.
  split; [apply map_Forall_empty|].
  apply (get_ip_country_agrees_with_database quiet_world (Some "5.1.1.1") initial).
  apply map_Forall_empty.
Defined.

(** X2: a call of [get_ip_country] returns, whatever the reader does,
    and leaves the returned value in the cache under the address; the
    entries of the other addresses are as they were. *)
Theorem get_ip_country_caches_what_it_returns (W : world) (ip : option string) (st : state) :
  exists c st',
    get_ip_country W ip st = (Ok c, st')
    /\ _IP_COUNTRY_CACHE st' !! ip = Some c
    /\ delete ip (_IP_COUNTRY_CACHE st') = delete ip (_IP_COUNTRY_CACHE st).
Proof.
  rewrite get_ip_country_eq.
  destruct (_IP_COUNTRY_CACHE st !! ip) as [[c|]|] eqn:E; cbn [default from_option id].
  - exists (Some c), st. auto.
  - destruct (_GEOIP_READER W); eexists _, _; (split; [reflexivity|]); cbn;
      rewrite lookup_insert_eq, delete_insert_eq, ?after_tick_cache; auto.
  - destruct (_GEOIP_READER W); eexists _, _; (split; [reflexivity|]); cbn;
      rewrite lookup_insert_eq, delete_insert_eq, ?after_tick_cache; auto.
Qed.

(** X3: a resolved country stays cached: once the cache holds a country
    code for an address, a lookup of any address leaves a state in
    which the lookup of that address returns the code and changes
    nothing, so it neither queries the database nor lets time pass. *)
Theorem resolved_country_stays_cached (W : world) (ip ip' : option string)
    (c : string) (st : state) :
  _IP_COUNTRY_CACHE st !! ip = Some (Some c) ->
  let st' := snd (get_ip_country W ip' st) in
  get_ip_country W ip st' = (Ok (Some c), st').
Proof.
  intros Hc. cbn zeta.
  assert (Hkeep : _IP_COUNTRY_CACHE (snd (get_ip_country W ip' st)) !! ip = Some (Some c)).
  { rewrite get_ip_country_eq.
    destruct (default None (_IP_COUNTRY_CACHE st !! ip')) as [c'|] eqn:E; [exact Hc|].
    assert (Hne : ip' <> ip).
    { intros ->. rewrite Hc in E. discriminate E. }
    destruct (_GEOIP_READER W); cbn; rewrite lookup_insert_ne by exact Hne;
      rewrite ?after_tick_cache; exact Hc. }
  rewrite (get_ip_country_eq W ip), Hkeep. reflexivity.
Qed.

Lemma resolved_country_stays_cached_witness :
  let st := snd (get_ip_country quiet_world (Some "8.8.8.8") initial) in
  let st' := snd (get_ip_country quiet_world (Some "100.64.0.1") st) in
  _IP_COUNTRY_CACHE st !! Some "8.8.8.8" = Some (Some "US")
  /\ get_ip_country quiet_world (Some "8.8.8.8") st' = (Ok (Some "US"), st').
Proof.
  split; [reflexivity|].
  apply (resolved_country_stays_cached quiet_world (Some "8.8.8.8") (Some "100.64.0.1")
           "US" (snd (get_ip_country quiet_world (Some "8.8.8.8") initial))).
  reflexivity.
Defined.

(** *** What a packet costs and what is printed for it *)

(** X4: a packet to a local destination, or on a port that is absent
    or outside the window, is re-injected without a lookup: the
    database is not queried, the cache is not written and no line is
    printed. *)
Theorem bypassed_packet_costs_no_lookup (L : ipaddress) (W : world)
    (pkt : packet) (st : state) :
  local_destination L pkt || outside_monitored_range (dst_port pkt) = true ->
  let st' := snd (handle_packet L W pkt st) in
  sends (trace st') = sends (trace st) ++ [pkt]
  /\ queries (trace st') = queries (trace st)
  /\ prints (trace st') = prints (trace st)
  /\ _IP_COUNTRY_CACHE st' = _IP_COUNTRY_CACHE st.
Proof.
  unfold local_destination. rewrite is_local_ip_eq. intros H. cbn zeta.
  assert (Hsend : handle_packet L W pkt st = send W pkt st).
  { unfold handle_packet, bind, lift. rewrite is_local_ip_eq.
    destruct (match ip_address L (dst_addr pkt) with Ok _ => _ | Raise _ => _ end);
      [reflexivity|].
    cbn in H. rewrite H. reflexivity. }
  rewrite Hsend, send_eq. cbn [snd].
  rewrite record_sends, record_queries, record_prints, after_tick_sends,
    after_tick_queries, after_tick_prints, !app_nil_r.
  repeat split. cbn. apply after_tick_cache.
Qed.

Lemma bypassed_packet_costs_no_lookup_witness :
  let pkt := sample_packet 4 "5.1.1.1" 15000 in
  let st' := snd (handle_packet DottedQuad.lib quiet_world pkt initial) in
  local_destination DottedQuad.lib pkt || outside_monitored_range (dst_port pkt) = true
  /\ sends (trace st') = [pkt]
  /\ queries (trace st') = []
  /\ prints (trace st') = []
  /\ _IP_COUNTRY_CACHE st' = ∅.
Proof.
  split; [reflexivity|].
  apply (bypassed_packet_costs_no_lookup DottedQuad.lib quiet_world
           (sample_packet 4 "5.1.1.1" 15000) initial).
  reflexivity.
Defined.

(** X5: for a packet that reaches the country test, exactly one line
    is printed: the blocked line when the packet is dropped, the
    allowed line when it is re-injected, each with the address, the
    port, and the country as resolved, [Unknown] when it is not. *)
Theorem monitored_packet_is_reported (L : ipaddress) (W : world)
    (pkt : packet) (st : state) :
  local_destination L pkt = false ->
  outside_monitored_range (dst_port pkt) = false ->
  let c := returned (fst (get_ip_country W (dst_addr pkt) st)) in
  let st' := snd (handle_packet L W pkt st) in
  prints (trace st') = prints (trace st) ++ [decision_report pkt c]
  /\ sends (trace st') =
     sends (trace st) ++ (if blocked_country c _BLOCK_COUNTRIES then [] else [pkt]).
Proof.
  unfold local_destination. rewrite is_local_ip_eq. intros Hlocal Hport. cbn zeta.
  unfold handle_packet, bind, lift. rewrite is_local_ip_eq, Hlocal, Hport.
  destruct (get_ip_country_frame W (dst_addr pkt) st) as (c & st1 & -> & Hs & Hp & _).
  cbn [fst returned]. rewrite blocked_test. unfold decision_report.
  destruct (blocked_country c _BLOCK_COUNTRIES).
  - rewrite print_eq. cbn [snd].
    rewrite record_prints, record_sends, after_tick_prints, after_tick_sends,
      Hs, Hp, app_nil_r. split; reflexivity.
  - rewrite print_eq, send_eq. cbn [snd].
    rewrite !record_prints, !record_sends, !after_tick_prints, !after_tick_sends,
      !record_prints, !record_sends, !after_tick_prints, !after_tick_sends,
      Hs, Hp, !app_nil_r. split; reflexivity.
Qed.

Lemma monitored_packet_is_reported_witness :
  let pkt := sample_packet 2 "81.2.69.142" 15001 in
  let st' := snd (handle_packet DottedQuad.lib quiet_world pkt initial) in
  local_destination DottedQuad.lib pkt = false
  /\ outside_monitored_range (dst_port pkt) = false
  /\ prints (trace st') = [MsgBlocked (Some "81.2.69.142") (Some 15001) "gb"]
  /\ sends (trace st') = [].
Proof.
  split; [reflexivity|]. split; [reflexivity|].
  apply (monitored_packet_is_reported DottedQuad.lib quiet_world
           (sample_packet 2 "81.2.69.142" 15001) initial);
    reflexivity.
Defined.

(** *** Composing the statements of the run *)

Lemma leads_ret {A} (I : state -> Prop) (a : A) : leads I I (ret a).
Proof. intros st H. exact H. Qed.

Lemma leads_weaken {A} (I I' J J' : state -> Prop) (m : M A) :
  (forall st, I' st -> I st) -> (forall st, J st -> J' st) ->
  leads I J m -> leads I' J' m.
Proof. intros HI HJ Hm st H. apply HJ, Hm, HI, H. Qed.

Lemma leads_bind {A B} (I J K : state -> Prop) (m : M A) (k : A -> M B) :
  leads I J m -> (forall a, leads J K (k a)) -> (forall st, J st -> K st) ->
  leads I K (bind m k).
Proof.
  intros Hm Hk HJK st H. unfold bind. specialize (Hm st H).
  destruct (m st) as [[a|e] st1]; cbn in *; [apply Hk | apply HJK]; exact Hm.
Qed.

Lemma leads_catch {A} (I J K : state -> Prop) (m : M A) (h : exn -> M A) :
  leads I J m -> (forall e, leads J K (h e)) -> (forall st, J st -> K st) ->
  leads I K (catch m h).
Proof.
  intros Hm Hh HJK st H. unfold catch. specialize (Hm st H).
  destruct (m st) as [[a|e] st1]; cbn in *; [apply HJK | apply Hh]; exact Hm.
Qed.

Lemma leads_try_finally {A} (I J K : state -> Prop) (m : M A) (f : M unit) :
  leads I J m -> leads J K f -> leads I K (try_finally m f).
Proof.
  intros Hm Hf st H. unfold try_finally. specialize (Hm st H).
  destruct (m st) as [r st1]. cbn in Hm. specialize (Hf st1 Hm).
  destruct (f st1) as [[[]|e] st2]; exact Hf.
Qed.

Lemma leads_with {A} (I J K : state -> Prop) (enter : M handle)
    (body : handle -> M A) (exit : M unit) :
  leads I I enter -> (forall w, leads I J (body w)) -> leads J K exit ->
  (forall st, I st -> K st) ->
  leads I K (with_ enter body exit).
Proof.
  intros He Hb Hx HIK st H. unfold with_, bind at 1. specialize (He st H).
  destruct (enter st) as [[w|e] st1]; cbn in He; [|apply HIK, He].
  specialize (Hb w st1 He). destruct (body w st1) as [r st2]. cbn in Hb.
  specialize (Hx st2 Hb). unfold bind, lift.
  destruct (exit st2) as [[[]|e] st3]; exact Hx.
Qed.

(** Properties of states that the signal handler and the events in [ok]
    keep are kept by every statement that records such events only. *)
Section Stable.
Variable L : ipaddress.
Variable W : world.
Variable I : state -> Prop.
Variable ok : event -> bool.
Hypothesis S_clock : forall n st, I st -> I (set_clock n st).
Hypothesis S_stopped : forall st, I st -> I (stopped st).
Hypothesis S_publish : forall h st, I st -> I (set_CURRENT_DIVERT h st).
Hypothesis S_cache : forall c st, I st -> I (set_cache c st).
Hypothesis S_record : forall e st, ok e = true -> I st -> I (record e st).

Lemma stable_after_tick st : I st -> I (after_tick W st).
Proof.
  intros H. unfold after_tick.
  destruct (sigint W (clock st)); [apply S_stopped|]; apply S_clock, H.
Qed.

Lemma stable_tick : preserves I (tick W).
Proof. intros st H. rewrite tick_eq. apply stable_after_tick, H. Qed.

Lemma stable_print m : ok (EvPrint m) = true -> preserves I (print W m).
Proof.
  intros Hok st H. rewrite print_eq. apply S_record; [exact Hok|].
  apply stable_after_tick, H.
Qed.

Lemma stable_read_RUNNING : preserves I (read_RUNNING W).
Proof. intros st H. rewrite read_RUNNING_eq. apply stable_after_tick, H. Qed.

Lemma stable_send pkt : ok (EvSend pkt) = true -> preserves I (send W pkt).
Proof.
  intros Hok st H. rewrite send_eq. apply S_record; [exact Hok|].
  apply stable_after_tick, H.
Qed.

Lemma stable_open : ok EvOpen = true -> preserves I (open W).
Proof.
  intros Hok st H. rewrite open_eq. apply S_record; [exact Hok|].
  apply stable_after_tick, H.
Qed.

Lemma stable_close : ok EvClose = true -> preserves I (close W).
Proof.
  intros Hok st H. rewrite close_eq. apply S_record; [exact Hok|].
  apply stable_after_tick, H.
Qed.

Lemma stable_publish h : preserves I (modify (set_CURRENT_DIVERT h)).
Proof. intros st H. apply S_publish, H. Qed.

Lemma stable_get_ip_country ip :
  ok (EvQuery ip) = true -> preserves I (get_ip_country W ip).
Proof.
  intros Hok st H. rewrite get_ip_country_eq.
  destruct (default None (_IP_COUNTRY_CACHE st !! ip)); [exact H|].
  destruct (_GEOIP_READER W); cbn [snd]; apply S_cache; [|exact H].
  apply S_record; [exact Hok|]. apply stable_after_tick, H.
Qed.

Lemma stable_handle_packet pkt :
  (forall m, ok (EvPrint m) = true) ->
  ok (EvSend pkt) = true -> ok (EvQuery (dst_addr pkt)) = true ->
  preserves I (handle_packet L W pkt).
Proof.
  intros Hprint Hsend Hquery. unfold handle_packet.
  apply preserves_bind; [apply preserves_lift|].
  intros [|]; [apply stable_send, Hsend|].
  destruct (outside_monitored_range _); [apply stable_send, Hsend|].
  apply preserves_bind; [apply stable_get_ip_country, Hquery|].
  intros c. destruct (_ && _); [apply stable_print, Hprint|].
  apply preserves_bind; [apply stable_print, Hprint|].
  intros _. apply stable_send, Hsend.
Qed.

Lemma stable_try_handle_packet pkt :
  (forall m, ok (EvPrint m) = true) ->
  ok (EvSend pkt) = true -> ok (EvQuery (dst_addr pkt)) = true ->
  preserves I (try_handle_packet L W pkt).
Proof.
  intros Hprint Hsend Hquery. unfold try_handle_packet. apply preserves_catch.
  - apply preserves_bind; [apply stable_handle_packet; assumption|].
    intros _. apply preserves_ret.
  - intros _. unfold on_packet_error.
    apply preserves_bind; [apply stable_read_RUNNING|].
    intros [|]; cbn [negb]; [|apply preserves_ret].
    apply preserves_bind; [apply stable_print, Hprint|]. intros _.
    apply preserves_bind; [|intros _; apply preserves_ret].
    apply preserves_catch; [apply stable_send, Hsend|].
    intros _. apply preserves_ret.
Qed.

End Stable.

(** The run takes [I] to [J] when the loop does, [I] is kept on the way
    to the loop and [J] on the way out. *)
Section Run.
Variable L : ipaddress.
Variable W : world.
Variable script : list recv_event.
Variables I J : state -> Prop.
Hypothesis I_J : forall st, I st -> J st.
Hypothesis I_print : forall m, preserves I (print W m).
Hypothesis I_open : preserves I (open W).
Hypothesis I_tick : preserves I (tick W).
Hypothesis I_publish : forall h, preserves I (modify (set_CURRENT_DIVERT h)).
Hypothesis J_print : forall m, preserves J (print W m).
Hypothesis J_read_RUNNING : preserves J (read_RUNNING W).
Hypothesis J_close : preserves J (close W).
Hypothesis J_tick : preserves J (tick W).
Hypothesis J_publish : forall h, preserves J (modify (set_CURRENT_DIVERT h)).
Hypothesis loop_I_J : leads I J (receive_loop L W script).

Lemma handler_keeps (m : message) :
  preserves J (bind (read_RUNNING W)
                 (fun running => if running then print W m else ret tt)).
Proof.
  apply preserves_bind; [exact J_read_RUNNING|].
  intros [|]; [apply J_print | apply preserves_ret].
Qed.

Lemma run_leads : leads I J (block_countries_for_process L W script).
Proof.
  unfold block_countries_for_process.
  do 3 (apply (leads_bind I I J); [apply I_print | intros _ | exact I_J]).
  apply (leads_try_finally I J J);
    [|apply preserves_bind; [exact J_tick | intros _; apply J_publish]].
  apply (leads_catch I J J); [|intros _; apply handler_keeps | auto].
  unfold with_divert.
  apply (leads_with I J J); [exact I_open | | exact J_close | exact I_J].
  intros w. apply (leads_bind I I J); [exact I_tick | intros _ | exact I_J].
  apply (leads_bind I I J); [apply I_publish | intros _ | exact I_J].
  unfold guarded_loop.
  apply (leads_catch I J J); [exact loop_I_J | intros _; apply handler_keeps | auto].
Qed.

End Run.

(** *** Opening and closing the handle *)

Lemma setup_events_record e st :
  setup_event e = true ->
  forallb setup_event (trace st) = true ->
  forallb setup_event (trace (record e st)) = true.
Proof. intros He H. cbn. rewrite forallb_app, H. cbn. rewrite He. reflexivity. Qed.

Lemma setup_state_after_tick W st :
  CURRENT_DIVERT st = None /\ forallb setup_event (trace st) = true ->
  CURRENT_DIVERT (after_tick W st) = None
  /\ forallb setup_event (trace (after_tick W st)) = true.
Proof.
  intros [Hh Ht]. rewrite after_tick_CURRENT_DIVERT, after_tick_trace.
  split; [exact Hh|]. rewrite forallb_app, Ht. unfold signal_events.
  rewrite Hh. destruct (sigint W (clock st)); reflexivity.
Qed.

(** X6: when the handle does not open, the run that starts in the
    initial state touches no packet: its trace holds printed lines,
    the attempt to open and, when SIGINT arrives, the write of the
    flag, so there is no [recv], no [send], no [close] and no database
    query; and the setup error is printed whenever the flag is still up
    at the end. *)
Theorem setup_failure_processes_nothing (L : ipaddress) (W : world)
    (script : list recv_event) :
  open_ok W = false ->
  let st' := snd (block_countries_for_process L W script initial) in
  forallb setup_event (trace st') = true
  /\ (RUNNING st' = true -> MsgSetupError ∈ prints (trace st')).
Proof.
  intros Hopen. cbn zeta.
  unfold block_countries_for_process, bind. rewrite !print_eq.
  unfold try_finally, catch, with_divert, with_, bind.
  rewrite open_eq, Hopen, read_RUNNING_eq.
  assert (Hstep : forall e s,
            setup_event e = true ->
            CURRENT_DIVERT s = None /\ forallb setup_event (trace s) = true ->
            CURRENT_DIVERT (record e (after_tick W s)) = None
            /\ forallb setup_event (trace (record e (after_tick W s))) = true).
  { intros e s He H. apply (setup_state_after_tick W) in H as [Hh Ht].
    split; [exact Hh | apply setup_events_record; assumption]. }
  set (s3 := record (EvPrint MsgBlocking) _).
  assert (H3 : CURRENT_DIVERT s3 = None /\ forallb setup_event (trace s3) = true).
  { subst s3. do 3 (apply Hstep; [reflexivity|]). split; reflexivity. }
  set (sr := after_tick W (record EvOpen (after_tick W s3))).
  assert (Hr : CURRENT_DIVERT sr = None /\ forallb setup_event (trace sr) = true).
  { subst sr. apply setup_state_after_tick, Hstep; [reflexivity | exact H3]. }
  destruct (RUNNING sr) eqn:Hrun.
  - rewrite print_eq, tick_eq. unfold modify. cbn [snd]. split.
    + cbn [trace set_CURRENT_DIVERT].
      apply setup_state_after_tick, Hstep; [reflexivity | exact Hr].
    + intros _. cbn [trace set_CURRENT_DIVERT].
      rewrite after_tick_prints, record_prints. apply elem_of_app. right. constructor.
  - unfold ret. rewrite tick_eq. unfold modify. cbn [snd]. split.
    + cbn [trace set_CURRENT_DIVERT]. apply setup_state_after_tick, Hr.
    + cbn [RUNNING set_CURRENT_DIVERT]. rewrite after_tick_RUNNING, Hrun. discriminate.
Qed.

Lemma setup_failure_processes_nothing_witness :
  let script := [Yields (Some (sample_packet 1 "8.8.8.8" 15500))] in
  let st' := snd (block_countries_for_process DottedQuad.lib no_handle_world script initial) in
  open_ok no_handle_world = false
  /\ forallb setup_event (trace st') = true
  /\ (RUNNING st' = true -> MsgSetupError ∈ prints (trace st')).
Proof.
  split; [reflexivity|].
  apply (setup_failure_processes_nothing DottedQuad.lib no_handle_world
           [Yields (Some (sample_packet 1 "8.8.8.8" 15500))]).
  reflexivity.
Defined.

Lemma released_record e st :
  after_close e = true -> released (trace st) -> released (trace (record e st)).
Proof.
  intros He (t1 & t2 & Ht & H2). exists t1, (t2 ++ [e]). cbn. rewrite Ht. split.
  - rewrite <- app_assoc. reflexivity.
  - rewrite forallb_app, H2. cbn. rewrite He. reflexivity.
Qed.

Lemma released_stopped st : released (trace st) -> released (trace (stopped st)).
Proof.
  intros H. unfold stopped.
  destruct (CURRENT_DIVERT st); repeat (apply released_record; [reflexivity|]);
    exact H.
Qed.

Lemma released_after_close W st : released (trace (snd (close W st))).
Proof.
  rewrite close_eq. cbn. exists (trace (after_tick W st)), []. split; reflexivity.
Qed.

(** X7: when the handle opens, [__exit__] closes it whatever the loop
    did, and nothing uses it afterwards: in the trace of the run a call
    of [close] is followed by printed lines, writes of the flag and
    further calls of [close] only. *)
Theorem handle_released_on_return (L : ipaddress) (W : world)
    (script : list recv_event) (st : state) :
  open_ok W = true ->
  released (trace (snd (block_countries_for_process L W script st))).
Proof.
  intros Hopen.
  pose (K := fun s : state => released (trace s)).
  assert (Ktick : preserves K (tick W)).
  { apply (stable_tick W K); [intros n s H; exact H | apply released_stopped]. }
  assert (Kprint : forall m, preserves K (print W m)).
  { intros m. apply (stable_print W K after_close);
      [intros n s H; exact H | apply released_stopped | apply released_record | reflexivity]. }
  assert (Kread : preserves K (read_RUNNING W)).
  { apply (stable_read_RUNNING W K); [intros n s H; exact H | apply released_stopped]. }
  assert (Khandler : forall m,
            preserves K (bind (read_RUNNING W)
                           (fun running => if running then print W m else ret tt))).
  { intros m. apply preserves_bind; [exact Kread|].
    intros [|]; [apply Kprint | apply preserves_ret]. }
  assert (Hwith : forall s, K (snd (with_divert L W script s))).
  { intros s. unfold with_divert, with_, bind at 1. rewrite open_eq, Hopen.
    destruct (bind (tick W) _ _) as [r s2]. unfold bind, lift.
    pose proof (released_after_close W s2) as Hc.
    destruct (close W s2) as [[[]|e] s3]; exact Hc. }
  unfold block_countries_for_process, bind. rewrite !print_eq.
  apply (leads_try_finally (fun _ => True) K K); [| |exact I].
  - intros s _. unfold catch. pose proof (Hwith s) as Hs.
    destruct (with_divert L W script s) as [[[]|e] s1]; [exact Hs|].
    apply Khandler, Hs.
  - apply preserves_bind; [exact Ktick|]. intros _ s H. exact H.
Qed.

Lemma handle_released_on_return_witness :
  let script := [Yields (Some (sample_packet 1 "8.8.8.8" 15500)); RecvRaises] in
  open_ok quiet_world = true
  /\ released (trace (snd (block_countries_for_process DottedQuad.lib quiet_world
                             script initial))).
Proof.
  split; [reflexivity|].
  apply (handle_released_on_return DottedQuad.lib quiet_world
           [Yields (Some (sample_packet 1 "8.8.8.8" 15500)); RecvRaises] initial).
  reflexivity.
Defined.

(** *** Shutdown within one receive *)

Lemma recvs_snoc t e :
  recvs (t ++ [e]) = (recvs t + (if is_recv e then 1 else 0))%nat.
Proof. induction t as [|e0 t IH]; cbn; [lia|]. rewrite IH. lia. Qed.

Lemma stopped_in_snoc t e : stopped_in (t ++ [e]) = stopped_in t || is_stop e.
Proof. unfold stopped_in. rewrite existsb_app. cbn. rewrite orb_false_r. reflexivity. Qed.

Lemma recvs_after_stop_snoc t e :
  recvs_after_stop (t ++ [e]) =
  (recvs_after_stop t + (if stopped_in t && is_recv e then 1 else 0))%nat.
Proof.
  induction t as [|e0 t IH]; cbn.
  - destruct (is_stop e); reflexivity.
  - destruct (is_stop e0); cbn; [apply recvs_snoc | exact IH].
Qed.

Lemma no_recv_since_stop_record e st :
  quiet_event e = true -> no_recv_since_stop st -> no_recv_since_stop (record e st).
Proof.
  unfold quiet_event. intros He [H0 Hup]. apply andb_true_iff in He as [Hr Hs].
  apply negb_true_iff in Hr, Hs. split; cbn.
  - rewrite recvs_after_stop_snoc, Hr, andb_false_r. lia.
  - intros Hrun. rewrite stopped_in_snoc, Hs, orb_false_r. apply Hup, Hrun.
Qed.

Lemma no_recv_since_stop_stopped st :
  no_recv_since_stop st -> no_recv_since_stop (stopped st).
Proof.
  intros [H0 _]. unfold stopped.
  destruct (CURRENT_DIVERT st); split; cbn;
    rewrite ?recvs_after_stop_snoc; cbn; rewrite ?andb_false_r;
    try lia; discriminate.
Qed.

Lemma one_recv_since_stop_record e st :
  is_recv e = false -> one_recv_since_stop st -> one_recv_since_stop (record e st).
Proof.
  unfold one_recv_since_stop. intros Hr H. cbn.
  rewrite recvs_after_stop_snoc, Hr, andb_false_r. lia.
Qed.

Lemma one_recv_since_stop_stopped st :
  one_recv_since_stop st -> one_recv_since_stop (stopped st).
Proof.
  intros H. unfold stopped.
  destruct (CURRENT_DIVERT st); repeat (apply one_recv_since_stop_record; [reflexivity|]);
    exact H.
Qed.

Lemma one_recv_since_stop_quiet e st :
  quiet_event e = true -> one_recv_since_stop st -> one_recv_since_stop (record e st).
Proof.
  intros He. apply one_recv_since_stop_record.
  apply andb_true_iff in He as [Hr _]. apply negb_true_iff, Hr.
Qed.

Lemma receive_loop_one_recv_since_stop (L : ipaddress) (W : world)
    (script : list recv_event) :
  leads no_recv_since_stop one_recv_since_stop (receive_loop L W script).
Proof.
  assert (Hweak : forall st, no_recv_since_stop st -> one_recv_since_stop st).
  { intros st [H0 _]. unfold one_recv_since_stop. lia. }
  assert (Hclock : forall n st, no_recv_since_stop st -> no_recv_since_stop (set_clock n st))
    by (intros n st H; exact H).
  assert (Hcache : forall c st, no_recv_since_stop st -> no_recv_since_stop (set_cache c st))
    by (intros c st H; exact H).
  assert (Hiter : forall pkt, preserves no_recv_since_stop (iteration L W pkt)).
  { intros pkt. unfold iteration. apply preserves_bind.
    - apply (stable_read_RUNNING W _ Hclock no_recv_since_stop_stopped).
    - intros [|]; cbn [negb].
      + destruct pkt as [pkt|]; [|apply preserves_ret].
        apply (stable_try_handle_packet L W _ quiet_event Hclock
                 no_recv_since_stop_stopped Hcache no_recv_since_stop_record);
          reflexivity.
      + apply preserves_bind; [|intros _; apply preserves_ret].
        apply (stable_print W _ quiet_event Hclock no_recv_since_stop_stopped
                 no_recv_since_stop_record). reflexivity. }
  induction script as [|ev rest IH]; intros st H; [apply Hweak, H|].
  cbn [receive_loop]. unfold bind at 1. rewrite next_eq.
  assert (Ha : no_recv_since_stop (after_tick W st)).
  { apply stable_after_tick; auto using no_recv_since_stop_stopped. }
  destruct (RUNNING (after_tick W st)) eqn:Hrun.
  - assert (H1 : no_recv_since_stop (record EvRecv (after_tick W st))).
    { destruct Ha as [H0 Hup]. specialize (Hup Hrun). split; cbn.
      - rewrite recvs_after_stop_snoc, Hup. cbn. lia.
      - intros _. rewrite stopped_in_snoc, Hup. reflexivity. }
    destruct ev as [pkt|]; [|apply Hweak, H1].
    apply (leads_bind no_recv_since_stop no_recv_since_stop one_recv_since_stop
             (iteration L W pkt)); [apply Hiter | | exact Hweak | exact H1].
    intros [|]; [exact IH | intros s Hs; apply Hweak, Hs].
  - assert (H1 : one_recv_since_stop (record EvRecv (after_tick W st))).
    { destruct Ha as [H0 _]. unfold one_recv_since_stop. cbn.
      rewrite recvs_after_stop_snoc, H0. destruct (_ && _); lia. }
    destruct ev as [pkt|]; [|exact H1].
    unfold iteration, bind. rewrite read_RUNNING_eq.
    rewrite (after_tick_stopped W (record EvRecv (after_tick W st)) Hrun).
    cbn [negb]. rewrite print_eq. cbn [snd ret].
    apply one_recv_since_stop_record; [reflexivity|].
    apply stable_after_tick; [intros n s Hs; exact Hs | apply one_recv_since_stop_stopped|].
    apply stable_after_tick; [intros n s Hs; exact Hs | apply one_recv_since_stop_stopped|].
    exact H1.
Qed.

(** X8: shutdown takes one receive at most: in the trace of a run
    that starts in the initial state, whatever the script, the signals
    and the failures, at most one call of [recv] follows the first
    write [RUNNING = False]. *)
Theorem shutdown_within_one_receive (L : ipaddress) (W : world)
    (script : list recv_event) :
  (recvs_after_stop (trace (snd (block_countries_for_process L W script initial)))
   <= 1)%nat.
Proof.
  assert (Hclock0 : forall n st, no_recv_since_stop st -> no_recv_since_stop (set_clock n st))
    by (intros n st H; exact H).
  assert (Hclock1 : forall n st, one_recv_since_stop st -> one_recv_since_stop (set_clock n st))
    by (intros n st H; exact H).
  apply (run_leads L W script no_recv_since_stop one_recv_since_stop).
  - intros st [H0 _]. unfold one_recv_since_stop. lia.
  - intros m. apply (stable_print W _ quiet_event Hclock0 no_recv_since_stop_stopped
                       no_recv_since_stop_record). reflexivity.
  - apply (stable_open W _ quiet_event Hclock0 no_recv_since_stop_stopped
             no_recv_since_stop_record). reflexivity.
  - apply (stable_tick W _ Hclock0 no_recv_since_stop_stopped).
  - intros h st H. exact H.
  - intros m. apply (stable_print W _ quiet_event Hclock1 one_recv_since_stop_stopped
                       one_recv_since_stop_quiet). reflexivity.
  - apply (stable_read_RUNNING W _ Hclock1 one_recv_since_stop_stopped).
  - apply (stable_close W _ quiet_event Hclock1 one_recv_since_stop_stopped
             one_recv_since_stop_quiet). reflexivity.
  - apply (stable_tick W _ Hclock1 one_recv_since_stop_stopped).
  - intros h st H. exact H.
  - apply receive_loop_one_recv_since_stop.
  - split; [reflexivity | reflexivity].
Qed.

(** *** The undisturbed run *)

Lemma quiet_after_tick (W : world) (st : state) :
  sigint W (clock st) = false -> after_tick W st = set_clock (S (clock st)) st.
Proof. intros H. unfold after_tick. rewrite H. reflexivity. Qed.

Lemma allowed_local (L : ipaddress) (W : world) (pkt : packet) :
  local_destination L pkt = true -> allowed L W pkt = true.
Proof. unfold allowed, decide_chain. intros ->. reflexivity. Qed.

Lemma allowed_outside (L : ipaddress) (W : world) (pkt : packet) :
  outside_monitored_range (dst_port pkt) = true -> allowed L W pkt = true.
Proof.
  unfold allowed, decide_chain. rewrite <- outside_monitored_range_in_window.
  intros ->. destruct (local_destination L pkt); reflexivity.
Qed.

Lemma allowed_monitored (L : ipaddress) (W : world) (pkt : packet) :
  local_destination L pkt = false ->
  outside_monitored_range (dst_port pkt) = false ->
  allowed L W pkt =
  negb (blocked_country (database_country W (dst_addr pkt)) _BLOCK_COUNTRIES).
Proof.
  unfold allowed, decide_chain. rewrite <- outside_monitored_range_in_window.
  intros -> ->. cbn. destruct (blocked_country _ _); reflexivity.
Qed.

Section Undisturbed.
Variable L : ipaddress.
Variable W : world.
Hypothesis no_signal : forall n, sigint W n = false.
Hypothesis sends_succeed : forall n, send_ok W n = true.

Lemma undisturbed_RUNNING st : RUNNING (after_tick W st) = RUNNING st.
Proof. rewrite after_tick_RUNNING, no_signal. apply andb_true_r. Qed.

Lemma undisturbed_handle_packet pkt st :
  cache_agrees W st ->
  exists st',
    handle_packet L W pkt st = (Ok tt, st')
    /\ cache_agrees W st'
    /\ RUNNING st' = RUNNING st
    /\ sends (trace st') =
       sends (trace st) ++ (if allowed L W pkt then [pkt] else []).
Proof.
  intros Hc.
  assert (Hsend : forall s,
            cache_agrees W s ->
            exists s', send W pkt s = (Ok tt, s')
                       /\ cache_agrees W s' /\ RUNNING s' = RUNNING s
                       /\ sends (trace s') = sends (trace s) ++ [pkt]).
  { intros s Hs. eexists. rewrite send_eq, sends_succeed. split; [reflexivity|].
    split; [|split].
    - unfold cache_agrees. cbn. rewrite after_tick_cache. exact Hs.
    - cbn. apply undisturbed_RUNNING.
    - rewrite record_sends, after_tick_sends. reflexivity. }
  unfold handle_packet, bind, lift. rewrite is_local_ip_eq.
  destruct (match ip_address L (dst_addr pkt) with Ok _ => _ | Raise _ => _ end) eqn:Hl.
  { rewrite allowed_local; [apply Hsend, Hc|].
    unfold local_destination. rewrite is_local_ip_eq. exact Hl. }
  destruct (outside_monitored_range (dst_port pkt)) eqn:Hp.
  { rewrite allowed_outside; [apply Hsend, Hc | exact Hp]. }
  rewrite allowed_monitored;
    [|unfold local_destination; rewrite is_local_ip_eq; exact Hl | exact Hp].
  destruct (get_ip_country_agrees W (dst_addr pkt) st Hc) as (st1 & Hg & Hc1).
  destruct (get_ip_country_frame W (dst_addr pkt) st) as (c & st1' & Hg' & Hs1 & _).
  rewrite Hg in Hg'. injection Hg' as <- <-. rewrite Hg, blocked_test.
  assert (Hr1 : RUNNING st1 = RUNNING st).
  { pose proof Hg as Hg2. rewrite get_ip_country_eq in Hg2.
    destruct (default None (_IP_COUNTRY_CACHE st !! dst_addr pkt));
      [injection Hg2 as _ <-; reflexivity|].
    destruct (_GEOIP_READER W); injection Hg2 as _ <-; cbn;
      [apply undisturbed_RUNNING | reflexivity]. }
  destruct (blocked_country _ _); cbn [negb].
  - rewrite print_eq. eexists. split; [reflexivity|]. split; [|split].
    + unfold cache_agrees. cbn. rewrite after_tick_cache. exact Hc1.
    + cbn. rewrite undisturbed_RUNNING. exact Hr1.
    + rewrite record_sends, after_tick_sends, Hs1. reflexivity.
  - rewrite print_eq.
    destruct (Hsend (record (EvPrint (MsgAllowed (dst_addr pkt) (dst_port pkt)
                                        (py_or (database_country W (dst_addr pkt)) "Unknown")))
                       (after_tick W st1))) as (s' & -> & Hc' & Hr' & Hs').
    { unfold cache_agrees. cbn. rewrite after_tick_cache. exact Hc1. }
    exists s'. split; [reflexivity|]. split; [exact Hc'|]. split.
    + rewrite Hr'. cbn. rewrite undisturbed_RUNNING. exact Hr1.
    + rewrite Hs', record_sends, after_tick_sends, Hs1, app_nil_r. reflexivity.
Qed.

Lemma undisturbed_receive_loop script st :
  RUNNING st = true ->
  cache_agrees W st ->
  sends (trace (snd (receive_loop L W script st))) =
  sends (trace st) ++ List.filter (allowed L W) (yielded script).
Proof.
  revert st. induction script as [|ev rest IH]; intros st Hrun Hc.
  { cbn. rewrite app_nil_r. reflexivity. }
  cbn [receive_loop]. unfold bind at 1. rewrite next_eq.
  set (s1 := record EvRecv (after_tick W st)).
  assert (Hs1 : sends (trace s1) = sends (trace st)).
  { subst s1. rewrite record_sends, after_tick_sends. apply app_nil_r. }
  assert (Hr1 : RUNNING s1 = true).
  { subst s1. cbn. rewrite undisturbed_RUNNING. exact Hrun. }
  assert (Hc1 : cache_agrees W s1).
  { subst s1. unfold cache_agrees. cbn. rewrite after_tick_cache. exact Hc. }
  destruct ev as [pkt|]; [|cbn; rewrite app_nil_r; exact Hs1].
  unfold bind, iteration, bind. rewrite read_RUNNING_eq, undisturbed_RUNNING, Hr1.
  cbn [negb].
  assert (Hr2 : RUNNING (after_tick W s1) = true)
    by (rewrite undisturbed_RUNNING; exact Hr1).
  assert (Hc2 : cache_agrees W (after_tick W s1))
    by (unfold cache_agrees; rewrite after_tick_cache; exact Hc1).
  destruct pkt as [pkt|]; cbn [yielded ret].
  - unfold try_handle_packet, catch, bind.
    destruct (undisturbed_handle_packet pkt (after_tick W s1) Hc2)
      as (s3 & -> & Hc3 & Hr3 & Hs3).
    cbn [ret]. rewrite IH; [|rewrite Hr3; exact Hr2 | exact Hc3].
    rewrite Hs3, after_tick_sends, Hs1. cbn [List.filter].
    destruct (allowed L W pkt); rewrite <- app_assoc; reflexivity.
  - rewrite IH; [|exact Hr2 | exact Hc2]. rewrite after_tick_sends, Hs1. reflexivity.
Qed.

End Undisturbed.

Lemma bind_tick {A} (W : world) (k : unit -> M A) (st : state) :
  bind (tick W) k st = k tt (after_tick W st).
Proof. unfold bind. rewrite tick_eq. reflexivity. Qed.

Lemma bind_modify {A} (f : state -> state) (k : unit -> M A) (st : state) :
  bind (modify f) k st = k tt (f st).
Proof. reflexivity. Qed.

(** X9: in a run that no signal disturbs and in which the handle opens
    and every [send] succeeds, the packets re-injected are, in order,
    the packets the script yields before the first failing [recv] that
    the chain allows, the country of a destination being the one the
    database gives; each is re-injected once. *)
Theorem undisturbed_run_reinjects_allowed (L : ipaddress) (W : world)
    (script : list recv_event) :
  (forall n, sigint W n = false) ->
  (forall n, send_ok W n = true) ->
  open_ok W = true ->
  sends (trace (snd (block_countries_for_process L W script initial))) =
  List.filter (allowed L W) (yielded script).
Proof.
  intros Hq Hs Ho.
  pose (J := fun s : state =>
               sends (trace s) = List.filter (allowed L W) (yielded script)).
  pose (ok := fun e => negb (is_send e)).
  assert (Jclock : forall n s, J s -> J (set_clock n s)) by (intros n s H; exact H).
  assert (Jrecord : forall e s, ok e = true -> J s -> J (record e s)).
  { intros e s He H. unfold J. rewrite record_sends. unfold J in H. rewrite H.
    destruct e; try apply app_nil_r. discriminate He. }
  assert (Jstopped : forall s, J s -> J (stopped s)).
  { intros s H. unfold stopped.
    destruct (CURRENT_DIVERT s); repeat (apply Jrecord; [reflexivity|]); exact H. }
  assert (Jhandler : forall m,
            preserves J (bind (read_RUNNING W)
                           (fun running => if running then print W m else ret tt))).
  { intros m. apply preserves_bind; [apply (stable_read_RUNNING W J Jclock Jstopped)|].
    intros [|]; [|apply preserves_ret].
    apply (stable_print W J ok Jclock Jstopped Jrecord). reflexivity. }
  unfold block_countries_for_process, bind. rewrite !print_eq.
  set (s3 := record (EvPrint MsgBlocking) _).
  apply (leads_try_finally (eq s3) J J); [| |reflexivity].
  2: { apply preserves_bind; [apply (stable_tick W J Jclock Jstopped)|].
       intros _ s H. exact H. }
  intros s <-. unfold catch.
  assert (Hwith : J (snd (with_divert L W script s3))).
  { unfold with_divert, with_, bind at 1. rewrite open_eq, Ho.
    rewrite bind_tick, bind_modify.
    set (s0 := set_CURRENT_DIVERT _ _).
    assert (H0 : J (snd (guarded_loop L W script s0))).
    { unfold guarded_loop.
      apply (leads_catch (eq s0) J J (receive_loop L W script));
        [|intros _; apply Jhandler | auto | reflexivity].
      intros s <-. unfold J.
      rewrite (undisturbed_receive_loop L W Hq Hs script s0).
      - subst s0. cbn [trace set_CURRENT_DIVERT].
        subst s3.
        rewrite !after_tick_sends, record_sends, !after_tick_sends, record_sends,
          !after_tick_sends, record_sends, !after_tick_sends, record_sends,
          !after_tick_sends.
        reflexivity.
      - subst s0 s3.
        do 5 (cbn [RUNNING set_CURRENT_DIVERT record];
              rewrite ?(undisturbed_RUNNING W Hq)).
        reflexivity.
      - subst s0 s3. unfold cache_agrees.
        do 5 (cbn [_IP_COUNTRY_CACHE set_CURRENT_DIVERT record];
              rewrite ?after_tick_cache).
        apply map_Forall_empty. }
    destruct (guarded_loop L W script s0) as [r s2]. cbn [snd] in H0.
    unfold bind, lift.
    pose proof (stable_close W J ok Jclock Jstopped Jrecord eq_refl s2 H0) as Hc.
    destruct (close W s2) as [[[]|e] s4]; exact Hc. }
  destruct (with_divert L W script _) as [[[]|e] s5]; [exact Hwith|].
  apply Jhandler, Hwith.
Qed.

Lemma undisturbed_run_reinjects_allowed_witness :
  let script :=
    [Yields (Some (sample_packet 1 "8.8.8.8" 15500));
     Yields (Some (sample_packet 2 "81.2.69.142" 15001));
     Yields None;
     Yields (Some (sample_packet 3 "192.168.1.5" 15500));
     Yields (Some (sample_packet 4 "5.1.1.1" 15000));
     Yields (Some (sample_packet 5 "5.1.1.1" 15999));
     RecvRaises;
     Yields (Some (sample_packet 6 "8.8.8.8" 15500))] in
  sends (trace (snd (block_countries_for_process DottedQuad.lib quiet_world
                       script initial))) =
  [sample_packet 1 "8.8.8.8" 15500; sample_packet 3 "192.168.1.5" 15500;
   sample_packet 4 "5.1.1.1" 15000].
Proof.
  apply (undisturbed_run_reinjects_allowed DottedQuad.lib quiet_world
           [Yields (Some (sample_packet 1 "8.8.8.8" 15500));
            Yields (Some (sample_packet 2 "81.2.69.142" 15001));
            Yields None;
            Yields (Some (sample_packet 3 "192.168.1.5" 15500));
            Yields (Some (sample_packet 4 "5.1.1.1" 15000));
            Yields (Some (sample_packet 5 "5.1.1.1" 15999));
            RecvRaises;
            Yields (Some (sample_packet 6 "8.8.8.8" 15500))]);
    reflexivity.
Defined.

(** ** The database file at import time *)

Lemma retrievals_emit (e : startup_event) (st : startup_state) :
  retrievals (output (emit e st)) =
  (retrievals (output st) + match e with StRetrieve => 1 | StPrint _ => 0 end)%nat.
Proof.
  unfold retrievals. cbn. rewrite omap_app, length_app. destruct e; reflexivity.
Qed.

Lemma retrieve_eq (SW : startup_world) (st : startup_state) :
  exists r st',
    retrieve SW st = (r, st')
    /\ retrievals (output st') = S (retrievals (output st))
    /\ match urlretrieve SW (disk st) with
       | Retrieved f => r = true /\ disk st' = Some f
       | RetrieveRaises remains => r = false /\ disk st' = remains
       end.
Proof.
  unfold retrieve.
  assert (Hd : disk (emit StRetrieve
                       match disk st with
                       | Some _ => emit (StPrint MsgUpdating) st
                       | None => emit (StPrint MsgDownloading) st
                       end) = disk st) by (destruct (disk st) eqn:E; cbn; exact E).
  rewrite Hd. destruct (urlretrieve SW (disk st)) as [f|remains]; eexists _, _;
    (split; [reflexivity|]); (split; [|split; reflexivity]);
    rewrite !retrievals_emit; cbn [output]; rewrite !retrievals_emit;
    destruct (disk st); rewrite ?retrievals_emit; lia.
Qed.

Lemma is_db_outdated_eq (SW : startup_world) (st : startup_state) (f : geoip_file) :
  disk st = Some f ->
  exists st',
    is_db_outdated SW st = ((now SW (now_calls st) - modified f >? thirty_days), st')
    /\ disk st' = Some f
    /\ now_calls st' = S (now_calls st)
    /\ retrievals (output st') = retrievals (output st).
Proof.
  intros Hd. unfold is_db_outdated, datetime_now. rewrite Hd.
  destruct (now SW (now_calls st) - modified f >? thirty_days); eexists;
    (split; [reflexivity|]); rewrite ?retrievals_emit;
    cbn [disk now_calls output emit]; repeat split; try exact Hd; lia.
Qed.

(** X11: a database file that is at most thirty days old at the
    reading of the clock, thirty days exactly included, is kept:
    [download_geoip_db] returns [True] without calling [urlretrieve]
    and leaves the file as it is. *)
Theorem fresh_database_is_not_downloaded (SW : startup_world) (st : startup_state) :
  fresh_on_disk SW st ->
  exists st',
    download_geoip_db SW st = (true, st')
    /\ disk st' = disk st
    /\ retrievals (output st') = retrievals (output st).
Proof.
  intros (f & Hd & Hage). unfold download_geoip_db. rewrite Hd.
  destruct (is_db_outdated_eq SW st f Hd) as (st1 & -> & Hd1 & _ & Hn1).
  assert (Hfresh : (now SW (now_calls st) - modified f >? thirty_days) = false).
  { rewrite Z.gtb_ltb. apply Z.ltb_ge, Hage. }
  rewrite Hfresh. cbn [negb]. unfold datetime_now. eexists. split; [reflexivity|].
  rewrite retrievals_emit. cbn [disk output emit]. split; [exact Hd1 | lia].
Qed.

Lemma fresh_database_is_not_downloaded_witness :
  let st := startup_with (Some (sample_file 0)) in
  fresh_on_disk offline_world st
  /\ exists st',
       download_geoip_db offline_world st = (true, st')
       /\ disk st' = disk st
       /\ retrievals (output st') = retrievals (output st).
Proof.
  assert (H : fresh_on_disk offline_world (startup_with (Some (sample_file 0)))).
  { exists (sample_file 0). split; [reflexivity|]. vm_compute. discriminate. }
  split; [exact H|].
  apply (fresh_database_is_not_downloaded offline_world
           (startup_with (Some (sample_file 0))) H).
Defined.

(** X12: when the file is missing, or more than thirty days old at the
    reading of the clock, [download_geoip_db] calls [urlretrieve] once;
    it returns [True] with the retrieved file on disk when the call
    returns, and [False], with on disk what the failed call left
    there, when the call raises. It never raises itself. *)
Theorem missing_or_old_database_is_downloaded (SW : startup_world) (st : startup_state) :
  ~ fresh_on_disk SW st ->
  exists r st',
    download_geoip_db SW st = (r, st')
    /\ retrievals (output st') = S (retrievals (output st))
    /\ match urlretrieve SW (disk st) with
       | Retrieved f => r = true /\ disk st' = Some f
       | RetrieveRaises remains => r = false /\ disk st' = remains
       end.
Proof.
  intros Hold. unfold download_geoip_db.
  destruct (disk st) as [f|] eqn:Hd.
  - destruct (is_db_outdated_eq SW st f Hd) as (st1 & -> & Hd1 & _ & Hn1).
    destruct (now SW (now_calls st) - modified f >? thirty_days) eqn:Hage.
    + cbn [negb]. destruct (retrieve_eq SW st1) as (r & st' & -> & Hn & Hr).
      rewrite Hd1, Hn1 in *. eauto.
    + exfalso. apply Hold. exists f. split; [exact Hd|].
      rewrite Z.gtb_ltb in Hage. apply Z.ltb_ge, Hage.
  - destruct (retrieve_eq SW st) as (r & st' & -> & Hn & Hr).
    rewrite Hd in Hr. eauto.
Qed.

Lemma missing_or_old_database_is_downloaded_witness :
  let st := startup_with (Some (sample_file 0)) in
  ~ fresh_on_disk online_world st
  /\ exists r st',
       download_geoip_db online_world st = (r, st')
       /\ retrievals (output st') = S (retrievals (output st))
       /\ r = true
       /\ disk st' = Some (sample_file (31 * microseconds_per_day)).
Proof.
  assert (H : ~ fresh_on_disk online_world (startup_with (Some (sample_file 0)))).
  { intros (f & Hd & Hage). injection Hd as <-. vm_compute in Hage.
    apply Hage. reflexivity. }
  split; [exact H|].
  destruct (missing_or_old_database_is_downloaded online_world
              (startup_with (Some (sample_file 0))) H)
    as (r & st' & Hrun & Hn & Hr & Hdisk).
  exists r, st'. auto.
Defined.

(** X13: a database on disk is loaded whatever its age when the
    network is of no help: if the download fails, or is not attempted,
    and the file is left as it was, [_GEOIP_READER] is the reader of
    that file ([None] if the file is no valid database). *)
Theorem failed_update_keeps_database (SW : startup_world) (st : startup_state)
    (f : geoip_file) :
  disk st = Some f ->
  urlretrieve SW (Some f) = RetrieveRaises (Some f) ->
  fst (load_reader SW st) = database f
  /\ disk (snd (load_reader SW st)) = Some f.
Proof.
  intros Hd Hfail. unfold load_reader, download_geoip_db. rewrite Hd.
  destruct (is_db_outdated_eq SW st f Hd) as (st1 & -> & Hd1 & _ & _).
  destruct (now SW (now_calls st) - modified f >? thirty_days); cbn [negb].
  - unfold retrieve. rewrite Hd1. cbn [disk emit]. rewrite Hd1, Hfail.
    cbn [disk emit]. destruct f as [t [reader|]]; split; reflexivity.
  - unfold datetime_now. cbn [disk emit]. rewrite Hd1.
    destruct f as [t [reader|]]; split; reflexivity.
Qed.

Lemma failed_update_keeps_database_witness :
  let st := startup_with (Some (sample_file (- microseconds_per_day))) in
  disk st = Some (sample_file (- microseconds_per_day))
  /\ urlretrieve offline_world (Some (sample_file (- microseconds_per_day)))
     = RetrieveRaises (Some (sample_file (- microseconds_per_day)))
  /\ fst (load_reader offline_world st) = Some sample_db
  /\ fst (download_geoip_db offline_world st) = false.
Proof.
  split; [reflexivity|]. split; [reflexivity|]. split; [|reflexivity].
  apply (failed_update_keeps_database offline_world
           (startup_with (Some (sample_file (- microseconds_per_day))))
           (sample_file (- microseconds_per_day)));
    reflexivity.
Defined.

(** X14: with no file on disk and a download that fails and leaves
    none, the import binds [_GEOIP_READER] to [None], and the filter
    then runs open: a run with that reader never queries a database
    and never reports a drop. *)
Theorem no_database_at_all_runs_open (SW : startup_world) (st : startup_state)
    (L : ipaddress) (W : world) (script : list recv_event) :
  disk st = None ->
  urlretrieve SW None = RetrieveRaises None ->
  fst (load_reader SW st) = None
  /\ never_resolved
       (snd (block_countries_for_process L (with_reader (fst (load_reader SW st)) W)
               script initial)).
Proof.
  intros Hd Hfail.
  assert (Hreader : fst (load_reader SW st) = None).
  { unfold load_reader, download_geoip_db, retrieve. rewrite Hd. cbn [disk emit].
    rewrite Hd, Hfail. reflexivity. }
  split; [exact Hreader|]. rewrite Hreader.
  apply kept_by_block_countries_for_process.
  - intros n s H. exact H.
  - intros s H. exact H.
  - intros h s H. exact H.
  - apply never_resolved_after_record.
  - intros pkt. apply handle_packet_no_database. reflexivity.
  - repeat split; [apply map_Forall_empty | constructor].
Qed.

Lemma no_database_at_all_runs_open_witness :
  disk (startup_with None) = None
  /\ urlretrieve offline_world None = RetrieveRaises None
  /\ fst (load_reader offline_world (startup_with None)) = None
  /\ never_resolved
       (snd (block_countries_for_process DottedQuad.lib
               (with_reader (fst (load_reader offline_world (startup_with None)))
                  quiet_world)
               [Yields (Some (sample_packet 5 "5.1.1.1" 15999))] initial)).
Proof.
  split; [reflexivity|]. split; [reflexivity|].
  apply (no_database_at_all_runs_open offline_world (startup_with None)
           DottedQuad.lib quiet_world
           [Yields (Some (sample_packet 5 "5.1.1.1" 15999))]);
    reflexivity.
Defined.

(** ** Further properties of sniffer.py *)



Lemma get_ip_info_region
    (ipinfo : string -> option (gmap string (option string)))
    (ip : string) (t : list Sniffer.sniff_event) :
  Sniffer.get_ip_info ipinfo ip t =
  (fst (Sniffer.get_ip_info ipinfo ip []), t ++ [Sniffer.SnGet ip]).
Proof. unfold Sniffer.get_ip_info. destruct (ipinfo ip); reflexivity. Qed.

Lemma sniff_eq (L : ipaddress)
    (ipinfo : string -> option (gmap string (option string)))
    (packets : list Sniffer.captured) (t : list Sniffer.sniff_event) :
  Sniffer.sniff L ipinfo packets t =
  t ++ match List.find (fortnite_packet L) packets with
       | Some p =>
           [Sniffer.SnPrintDetected (destination p);
            Sniffer.SnGet (destination p);
            Sniffer.SnPrintRegion
              (fst (Sniffer.get_ip_info ipinfo (destination p) []))]
       | None => []
       end.
Proof.
  induction packets as [|p rest IH]; cbn [Sniffer.sniff List.find].
  { symmetry. apply app_nil_r. }
  unfold fortnite_packet, destination.
  destruct (Sniffer.udp_srcport p) as [src_port|]; [|exact IH].
  destruct (Sniffer.ip_dst p) as [dst_ip|] eqn:Hdst; [|exact IH].
  destruct (Sniffer.is_local_ip L (Some dst_ip)) as [[|]|]; try exact IH.
  destruct (Sniffer.FORTNITE_PORT_RANGE src_port); [|exact IH].
  rewrite get_ip_info_region, Hdst, <- !app_assoc. reflexivity.
Qed.

(** X16: the capture stops at the first packet that is readable, has
    a destination that is not local and a source port from 12000 up to
    64999: it prints the detection line, asks for the region of that
    destination once and prints it. Packets before it, and every
    packet when there is none, leave no output. *)
Theorem capture_stops_at_first_fortnite_packet (L : ipaddress)
    (ipinfo : string -> option (gmap string (option string)))
    (packets : list Sniffer.captured) :
  Sniffer.capture_fortnite_traffic L ipinfo packets =
  Sniffer.SnPrintSniffing ::
  match List.find (fortnite_packet L) packets with
  | Some p =>
      [Sniffer.SnPrintDetected (destination p);
       Sniffer.SnGet (destination p);
       Sniffer.SnPrintRegion (fst (Sniffer.get_ip_info ipinfo (destination p) []))]
  | None => []
  end.
Proof. unfold Sniffer.capture_fortnite_traffic. rewrite sniff_eq. reflexivity. Qed.

